(** * QR decode service: Otsu threshold, luminance extraction and the
      preprocessing ladder of [src/qr/qr.service.ts], with the response
      mapping of [src/qr/qr.controller.ts].

    Numbers.  Every counter of [calculateOtsuThreshold] (bin counts, weights,
    intensity sums) is an integer, modelled in [Z].  Its two class means and
    the between-class variance are modelled in exact rational arithmetic
    ([Q]); a division whose divisor is zero leaves that domain and is
    reported as [None]. *)

From Stdlib Require Import ZArith QArith Qround Lia Lqa Floats Uint63.
From stdpp Require Import base option list strings.

Local Open Scope Z_scope.
Set Warnings "-inexact-float".

(** ** [calculateOtsuThreshold] (qr.service.ts, lines 125-160) *)

(** Local variables of the scan. *)
Record OtsuVars : Type := MkOtsuVars {
  sumB : Z;
  wB : Z;
  wF : Z;
  maxVariance : Q;
  threshold : Z
}.

(** How one pass through a loop body ends: [continue] or falling off the end
    of the body both go on to the next index, [break] leaves the loop. *)
Inductive LoopStep (S : Type) : Type :=
  | GoOn (s : S)
  | Break (s : S).
Arguments GoOn {S} s.
Arguments Break {S} s.

(** [histogram[i]] for an index inside the array. *)
Definition bin (histogram : list Z) (i : nat) : Z := default 0 (histogram !! i).

(** [a / b] on integer-valued operands. *)
Definition jsdiv (a b : Z) : option Q :=
  if b =? 0 then None else Some (inject_Z a / inject_Z b)%Q.

(** [x > y]. *)
Definition Qgtb (x y : Q) : bool := negb (Qle_bool x y).

(** Body of the second loop, lines 140-156. *)
Definition otsu_iteration (histogram : list Z) (total sum : Z) (i : nat)
    (v : OtsuVars) : option (LoopStep OtsuVars) :=
  let wB1 := wB v + bin histogram i in
  if wB1 =? 0 then
    Some (GoOn (MkOtsuVars (sumB v) wB1 (wF v) (maxVariance v) (threshold v)))
  else
    let wF1 := total - wB1 in
    if wF1 =? 0 then
      Some (Break (MkOtsuVars (sumB v) wB1 wF1 (maxVariance v) (threshold v)))
    else
      let sumB1 := sumB v + Z.of_nat i * bin histogram i in
      mB ← jsdiv sumB1 wB1;
      mF ← jsdiv (sum - sumB1) wF1;
      let variance := (inject_Z wB1 * inject_Z wF1 * (mB - mF) * (mB - mF))%Q in
      if Qgtb variance (maxVariance v) then
        Some (GoOn (MkOtsuVars sumB1 wB1 wF1 variance (Z.of_nat i)))
      else
        Some (GoOn (MkOtsuVars sumB1 wB1 wF1 (maxVariance v) (threshold v))).

(** [for (let i = start; i < start + n; i++) body]. *)
Fixpoint otsu_loop (histogram : list Z) (total sum : Z) (n : nat) (i : nat)
    (v : OtsuVars) : option OtsuVars :=
  match n with
  | O => Some v
  | S n' =>
      match otsu_iteration histogram total sum i v with
      | None => None
      | Some (Break v') => Some v'
      | Some (GoOn v') => otsu_loop histogram total sum n' (S i) v'
      end
  end.

Definition otsu_init : OtsuVars := MkOtsuVars 0 0 0 0%Q 0.

(** The function.  An array with fewer than 256 entries makes [histogram[i]]
    undefined for some [i < 256], so that [sum] is NaN after the first loop;
    then every [variance] is NaN, [variance > maxVariance] is never true and
    the initial [threshold = 0] is returned.  From 256 entries on, every read
    is inside the array. *)
Definition calculateOtsuThreshold (histogram : list Z) : option Z :=
  if (length histogram <? 256)%nat then Some 0
  else
    let total := foldl Z.add 0 histogram in
    let sum := foldl (fun s i => s + Z.of_nat i * bin histogram i) 0 (seq 0 256) in
    threshold <$> otsu_loop histogram total sum 256 0 otsu_init.

(** *** What the specification says of the scan, in its words *)

(** Background weight and intensity sum of the bins below index [i]. *)
Fixpoint weight_below (histogram : list Z) (i : nat) : Z :=
  match i with
  | O => 0
  | S j => weight_below histogram j + bin histogram j
  end.

Fixpoint moment_below (histogram : list Z) (i : nat) : Z :=
  match i with
  | O => 0
  | S j => moment_below histogram j + Z.of_nat j * bin histogram j
  end.

(** Candidate threshold [t]: background weight [wB] (bins [0..t]) and
    foreground weight [wF = total - wB] are both nonzero. *)
Definition otsu_wB (histogram : list Z) (t : nat) : Z := weight_below histogram (S t).
Definition otsu_wF (histogram : list Z) (t : nat) : Z :=
  weight_below histogram 256 - otsu_wB histogram t.

Definition candidate (histogram : list Z) (t : nat) : Prop :=
  otsu_wB histogram t <> 0 /\ otsu_wF histogram t <> 0.

(** Between-class variance [wB * wF * (mB - mF)^2] with [mB = sumB / wB] and
    [mF = (sum - sumB) / wF]. *)
Definition between_class_variance (histogram : list Z) (t : nat) : Q :=
  let w_b := otsu_wB histogram t in
  let w_f := otsu_wF histogram t in
  let sum_b := moment_below histogram (S t) in
  let sum := moment_below histogram 256 in
  let mB := (inject_Z sum_b / inject_Z w_b)%Q in
  let mF := (inject_Z (sum - sum_b) / inject_Z w_f)%Q in
  (inject_Z w_b * inject_Z w_f * (mB - mF) ^ 2)%Q.

(** Histograms used below: two isolated peaks, and the uniform one. *)
Definition two_peaks (a b : nat) (na nb : Z) : list Z :=
  <[b := nb]> (<[a := na]> (replicate 256 0)).

Definition uniform (c : Z) : list Z := replicate 256 c.

(** The expression of line 151 on the values of one iteration. *)
Definition otsu_variance (w_b w_f sum_b sum : Z) : Q :=
  (inject_Z w_b * inject_Z w_f
   * (inject_Z sum_b / inject_Z w_b - inject_Z (sum - sum_b) / inject_Z w_f)
   * (inject_Z sum_b / inject_Z w_b - inject_Z (sum - sum_b) / inject_Z w_f))%Q.

(** State of the running maximum before index [i]: either no candidate was
    met, or [thr] is the first candidate that attains the largest variance
    among the candidates below [i]. *)
Definition best_upto (histogram : list Z) (i : nat) (thr : Z) (mx : Q) : Prop :=
  ((forall k, (k < i)%nat -> ~ candidate histogram k) /\ thr = 0 /\ (mx == 0)%Q)
  \/ (exists t : nat,
        (t < i)%nat /\ thr = Z.of_nat t /\ candidate histogram t /\
        (mx == between_class_variance histogram t)%Q /\
        forall k, (k < i)%nat -> candidate histogram k ->
          (between_class_variance histogram k <= between_class_variance histogram t)%Q /\
          ((between_class_variance histogram t <= between_class_variance histogram k)%Q ->
           (t <= k)%nat)).

(** Check, over all candidates of the uniform histogram with count 1, that
    the variance is largest at 127 and nowhere else. *)
Definition uniform_peak_check : bool :=
  let v := between_class_variance (uniform 1) in
  forallb (fun k => Qle_bool (v k) (v 127%nat)
                    && (Nat.eqb k 127 || negb (Qle_bool (v 127%nat) (v k))))
          (seq 0 255).

(** ** Images and luminance extraction (qr.service.ts, lines 283-303) *)

(** One pixel of [bitmap.data]: four bytes, red first. *)
Record RGBA : Type := MkRGBA { red : Z; green : Z; blue : Z; alpha : Z }.

(** A Jimp image: [bitmap.data] holds [getWidth * getHeight] pixels row by
    row, so that the callback index [idx] of [scan] and the index of
    [getPixelColor(x, y)] both denote pixel number [getWidth * y + x]. *)
Record Jimp : Type := MkJimp {
  getWidth : nat;
  getHeight : nat;
  bitmap_data : list RGBA
}.

Definition is_byte (z : Z) : Prop := 0 <= z <= 255.

Definition valid_pixel (p : RGBA) : Prop :=
  is_byte (red p) /\ is_byte (green p) /\ is_byte (blue p) /\ is_byte (alpha p).

Definition valid_image (image : Jimp) : Prop :=
  length (bitmap_data image) = (getWidth image * getHeight image)%nat /\
  Forall valid_pixel (bitmap_data image).

(** [Jimp.intToRGBA(image.getPixelColor(x, y))] for [x < getWidth] and
    [y < getHeight]: the channels of pixel [(x, y)]. *)
Definition pixel_at (image : Jimp) (x y : nat) : RGBA :=
  default (MkRGBA 0 0 0 0) (bitmap_data image !! (getWidth image * y + x)%nat).

(** JavaScript numbers in the luminance formula are IEEE 754 binary64
    values; the kernel's primitive floats are the same format with the same
    round-to-nearest-even operations. *)
Definition number_of_Z (z : Z) : float := of_uint63 (Uint63.of_Z z).

(** An integral JavaScript number, as [Math.round] returns it. *)
Inductive Integral : Type :=
  | JsInt (z : Z)
  | JsInfinity (negative : bool)
  | JsNaN.

(** [Math.round(x)]: the integer nearest to [x], a tie going up.  A finite
    double is exactly [m * 2^e], so that the result is
    [floor ((2 m + 2^(-e)) / 2^(1 - e))] when [e < 0]. *)
Definition round_finite (s : bool) (m : positive) (e : Z) : Z :=
  let v := if s then Z.neg m else Z.pos m in
  if 0 <=? e then v * 2 ^ e
  else Z.shiftr (2 * v + 2 ^ (- e)) (- e + 1).

Definition Math_round (x : float) : Integral :=
  match Prim2SF x with
  | S754_nan => JsNaN
  | S754_infinity s => JsInfinity s
  | S754_zero _ => JsInt 0
  | S754_finite s m e => JsInt (round_finite s m e)
  end.

(** Storing into a [Uint8ClampedArray]. *)
Definition toUint8Clamp (v : Integral) : Z :=
  match v with
  | JsInt z => Z.max 0 (Z.min 255 z)
  | JsInfinity false => 255
  | JsInfinity true => 0
  | JsNaN => 0
  end.

(** [0.299 * rgba.r + 0.587 * rgba.g + 0.114 * rgba.b], line 300. *)
Definition weighted_sum (r g b : float) : float :=
  (0.299 * r + 0.587 * g + 0.114 * b)%float.

Definition luminance (rgba : RGBA) : Integral :=
  Math_round (weighted_sum (number_of_Z (red rgba)) (number_of_Z (green rgba))
                           (number_of_Z (blue rgba))).

(** Body of the inner loop: [luminanceArray[lumIndex++] = luminance]. *)
Definition store_luminance (image : Jimp) (y : nat) (st : list Z * nat) (x : nat)
    : list Z * nat :=
  let rgba := pixel_at image x y in
  (<[snd st := toUint8Clamp (luminance rgba)]> (fst st), S (snd st)).

(** The two nested loops over [y] and [x], from a zero-filled array of
    [width * height] bytes and [lumIndex = 0]. *)
Definition luminance_loops (image : Jimp) : list Z * nat :=
  foldl (fun st y => foldl (store_luminance image y) st (seq 0 (getWidth image)))
        (replicate (getWidth image * getHeight image) 0, 0%nat)
        (seq 0 (getHeight image)).

Definition luminanceArray (image : Jimp) : list Z := fst (luminance_loops image).

(** The custom luminance source handed to the binarizers. *)
Record LuminanceSource : Type := MkLuminanceSource {
  getMatrix : list Z;
  source_width : nat;
  source_height : nat
}.

(** [getRow(y)]: a copy of row [y]. *)
Definition getRow (src : LuminanceSource) (y : nat) : list Z :=
  take (source_width src) (drop (y * source_width src) (getMatrix src)).

Definition luminanceSource (image : Jimp) : LuminanceSource :=
  MkLuminanceSource (luminanceArray image) (getWidth image) (getHeight image).

(** All byte values as numbers, and the range test applied to the weighted
    sum of each triple of them. *)
Definition byte_numbers : list float :=
  map (fun n => number_of_Z (Z.of_nat n)) (seq 0 256).

Definition weighted_sum_in_range (v : float) : bool :=
  (0 <=? v)%float && (v <? 255.5)%float.

(** A 2 x 2 sample image. *)
Definition sample_image : Jimp :=
  MkJimp 2 2 [MkRGBA 0 36 12 255; MkRGBA 255 255 255 255;
              MkRGBA 10 20 30 255; MkRGBA 0 0 0 255].

(** Row [y] of the luminance matrix, and the first [h] rows one after the
    other, as the specification describes the output. *)
Definition luminance_row (image : Jimp) (y : nat) : list Z :=
  (fun x => toUint8Clamp (luminance (pixel_at image x y))) <$> seq 0 (getWidth image).

Definition luminance_rows (image : Jimp) (h : nat) : list Z :=
  flat_map (luminance_row image) (seq 0 h).

(** ** Effects: exceptions, log lines and calls to the external libraries *)

Inductive JsError : Type :=
  | NotFoundException
  | ChecksumException
  | FormatException
  | BadRequestException (message : string)
  | OtherError (message : string).

(** How a call ends. *)
Inductive Completion (A : Type) : Type :=
  | Returned (a : A)
  | Thrown (e : JsError).
Arguments Returned {A} a.
Arguments Thrown {A} e.

Inductive BinarizerType : Type := hybrid | global.

Inductive JimpCall : Type :=
  | CallRead
  | CallGreyscale
  | CallContrast (val : Q)
  | CallNormalize
  | CallResize (w h : nat)
  | CallConvolute (kernel : list (list Z))
  | CallWriteAsync (name : string) (now : Z).

(** The messages handed to the logger, one constructor per template. *)
Inductive LogLine : Type :=
  | DbgStarting
  | DbgImageLoaded (w h : nat)
  | DbgImageAnalysis (avgBrightness contrast : option Q) (darkPixels lightPixels : Z)
  | DbgVeryDark
  | DbgVeryLight
  | DbgTrying (method : string)
  | DbgOtsuThreshold (t : Z)
  | DbgDecoded (binarizerType : BinarizerType) (len : nat)
  | DbgChecksumFailed
  | DbgFormatInvalid
  | DbgMethodDecoded (method : string)
  | DbgMethodFailed (method : string) (e : JsError)
  | DbgNoQrFound
  | DbgImageSaved (name : string) (now : Z)
  | DbgSaveFailed (e : JsError)
  | ErrUnexpected (e : JsError)
  | CtlNoFile
  | CtlProcessing (originalname : string)
  | CtlDecoded (decodedText : string)
  | CtlNotFound (originalname : string)
  | CtlDecodeError (e : JsError).

Inductive Event : Type :=
  | EvLog (line : LogLine)
  | EvJimp (call : JimpCall)
  | EvDecode (binarizerType : BinarizerType).

(** A computation: how it ends, and what it logged and called on the way. *)
Definition Eff (A : Type) : Type := (Completion A * list Event)%type.

Definition ret {A : Type} (a : A) : Eff A := (Returned a, []).
Definition throw {A : Type} (e : JsError) : Eff A := (Thrown e, []).
Definition emit (ev : Event) : Eff unit := (Returned tt, [ev]).
Definition logger (line : LogLine) : Eff unit := emit (EvLog line).

Definition bind {A B : Type} (m : Eff A) (k : A -> Eff B) : Eff B :=
  match m with
  | (Returned a, t) => let (r, t') := k a in (r, t ++ t')
  | (Thrown e, t) => (Thrown e, t)
  end.

(** [try { body } catch (error) { handler }]. *)
Definition try_catch {A : Type} (body : Eff A) (handler : JsError -> Eff A) : Eff A :=
  match body with
  | (Thrown e, t) => let (r, t') := handler e in (r, t ++ t')
  | (Returned a, t) => (Returned a, t)
  end.

Notation "'let*' x ':=' m 'in' k" := (bind m (fun x => k))
  (at level 10, x name, m at level 100, k at level 200).
Notation "m ;;; k" := (bind m (fun _ => k))
  (at level 100, k at level 200, right associativity).

(** ** The external collaborators *)

(** jimp: decoding of the uploaded bytes and the image operations the
    service calls.  Each may throw. *)
Class JimpLibrary : Type := {
  Jimp_read : list Z -> Completion Jimp;
  Jimp_greyscale : Jimp -> Completion Jimp;
  Jimp_contrast : Q -> Jimp -> Completion Jimp;
  Jimp_normalize : Jimp -> Completion Jimp;
  Jimp_resize : nat -> nat -> Jimp -> Completion Jimp;
  Jimp_convolute : list (list Z) -> Jimp -> Completion Jimp
}.

(** @zxing/library: binarizer construction, [reader.decode] and
    [result.getText()], on the luminance source the service built. *)
Class ZXingLibrary : Type := {
  reader_decode : BinarizerType -> LuminanceSource -> Completion string
}.

(** What a run may observe besides its input: the values of
    [Math.random()] and [Date.now()] in call order, the environment
    variables that switch the debug images on, and the file system behind
    [writeAsync]. *)
Record World : Type := MkWorld {
  Math_random : nat -> Q;
  debug_images : bool;
  Date_now : nat -> Z;
  writeAsync : string -> Z -> option JsError
}.

Section Service.
Context `{JimpLibrary} `{ZXingLibrary}.

Definition read (buffer : list Z) : Eff Jimp := (Jimp_read buffer, [EvJimp CallRead]).
Definition greyscale (image : Jimp) : Eff Jimp :=
  (Jimp_greyscale image, [EvJimp CallGreyscale]).
Definition contrast (val : Q) (image : Jimp) : Eff Jimp :=
  (Jimp_contrast val image, [EvJimp (CallContrast val)]).
Definition normalize (image : Jimp) : Eff Jimp :=
  (Jimp_normalize image, [EvJimp CallNormalize]).
Definition resize (w h : nat) (image : Jimp) : Eff Jimp :=
  (Jimp_resize w h image, [EvJimp (CallResize w h)]).
Definition convolute (kernel : list (list Z)) (image : Jimp) : Eff Jimp :=
  (Jimp_convolute kernel image, [EvJimp (CallConvolute kernel)]).

(** [image.scan(0, 0, width, height, f)] for a callback that rewrites the
    pixel at [idx] from its own bytes. *)
Definition scan (f : RGBA -> RGBA) (image : Jimp) : Jimp :=
  let n := (getWidth image * getHeight image)%nat in
  MkJimp (getWidth image) (getHeight image)
         ((f <$> take n (bitmap_data image)) ++ drop n (bitmap_data image)).

(** The callback of lines 214-220, 240-246 and 163-169:
    [value = gray > cutoff ? 255 : 0] written to the three colour bytes. *)
Definition black_or_white (cutoff : Z) (p : RGBA) : RGBA :=
  let gray := red p in
  let value := if gray >? cutoff then 255 else 0 in
  MkRGBA value value value (alpha p).

(** Lines 204-208: [histogram[gray]++] over the scanned pixels. *)
Definition gray_histogram (image : Jimp) : list Z :=
  foldl (fun histogram p => alter Z.succ (Z.to_nat (red p)) histogram)
        (replicate 256 0)
        (take (getWidth image * getHeight image) (bitmap_data image)).

(** [applyThreshold], lines 162-170. *)
Definition applyThreshold (image : Jimp) : Eff Jimp :=
  let* g := greyscale image in
  ret (scan (black_or_white 128) g).

(** The [switch] of [tryDecodeWithProcessing], lines 183-260, on the clone
    of the original image. *)
Definition preprocess (method : string) (processedImage : Jimp) : Eff Jimp :=
  if String.eqb method "original" then ret processedImage
  else if String.eqb method "grayscale" then greyscale processedImage
  else if String.eqb method "contrast" then
    let* g := greyscale processedImage in
    let* c := contrast (1 # 2) g in
    normalize c
  else if String.eqb method "threshold" then
    let* g := greyscale processedImage in
    let histogram := gray_histogram g in
    let threshold := default 0 (calculateOtsuThreshold histogram) in
    logger (DbgOtsuThreshold threshold) ;;;
    ret (scan (black_or_white threshold) g)
  else if String.eqb method "resize" then
    let minDim := Nat.min (getWidth processedImage) (getHeight processedImage) in
    if (500 <? minDim)%nat then
      let* r := resize 500 500 processedImage in
      let* g := greyscale r in
      normalize g
    else ret processedImage
  else if String.eqb method "aggressive-threshold" then
    let* g := greyscale processedImage in
    let* c := contrast (4 # 5) g in
    ret (scan (black_or_white 100) c)
  else if String.eqb method "edge-enhance" then
    let* g := greyscale processedImage in
    let* c := convolute [[-1; -1; -1]; [-1; 9; -1]; [-1; -1; -1]] g in
    normalize c
  else ret processedImage.

(** [decodeWithBinarizer], lines 283-354. *)
Definition decodeWithBinarizer (image : Jimp) (binarizerType : BinarizerType)
    : Eff (option string) :=
  try_catch
    (let* decodedText := (reader_decode binarizerType (luminanceSource image),
                     [EvDecode binarizerType]) in
     logger (DbgDecoded binarizerType (String.length decodedText)) ;;;
     ret (Some decodedText))
    (fun error =>
       match error with
       | NotFoundException => ret None
       | ChecksumException => logger DbgChecksumFailed ;;; ret None
       | FormatException => logger DbgFormatInvalid ;;; ret None
       | _ => throw error
       end).

(** An element of the array [Promise.allSettled] resolves to. *)
Inductive PromiseSettledResult (A : Type) : Type :=
  | fulfilled (value : A)
  | rejected (reason : JsError).
Arguments fulfilled {A} value.
Arguments rejected {A} reason.

Definition settle {A : Type} (c : Completion A) : PromiseSettledResult A :=
  match c with
  | Returned a => fulfilled a
  | Thrown e => rejected e
  end.

(** [Promise.allSettled]: one entry per promise, in the order of the
    argument array. *)
Definition allSettled {A : Type} (outcomes : list (Completion A))
    : list (PromiseSettledResult A) :=
  settle <$> outcomes.

(** A string is truthy unless it is empty. *)
Definition truthy (s : string) : bool := negb (String.eqb s EmptyString).

(** [for (const result of results)
       if (result.status === 'fulfilled' && result.value) return result.value],
    with [None] when the loop runs to its end. *)
Fixpoint first_truthy (results : list (PromiseSettledResult (option string)))
    : option string :=
  match results with
  | [] => None
  | fulfilled (Some value) :: rest =>
      if truthy value then Some value else first_truthy rest
  | _ :: rest => first_truthy rest
  end.

(** A call of an [async] function: what it does before it returns its
    promise, what it does when it is resumed after its [await], and how
    the promise settles. *)
Record Promise (A : Type) : Type := MkPromise {
  during_call : list Event;
  after_await : list Event;
  settled : Completion A
}.
Arguments MkPromise {A} _ _ _.
Arguments during_call {A} _.
Arguments after_await {A} _.
Arguments settled {A} _.

(** [tryDecodeWithProcessing], lines 172-281.  The body runs up to
    [await Promise.allSettled([...])] inside the call: the two
    [decodeWithBinarizer] calls have no [await] of their own and run to
    their end when they are called.  An exception before the [await] is
    caught by the [catch] block inside the call. *)
Definition tryDecodeWithProcessing (originalImage : Jimp) (method : string)
    : Promise (option string) :=
  match logger (DbgTrying method) ;;; preprocess method originalImage with
  | (Thrown error, t) =>
      MkPromise (t ++ [EvLog (DbgMethodFailed method error)]) [] (Returned None)
  | (Returned processedImage, t) =>
      let with_hybrid := decodeWithBinarizer processedImage hybrid in
      let with_global := decodeWithBinarizer processedImage global in
      let results := allSettled [fst with_hybrid; fst with_global] in
      MkPromise
        (t ++ snd with_hybrid ++ snd with_global)
        (match first_truthy results with
         | Some _ => [EvLog (DbgMethodDecoded method)]
         | None => []
         end)
        (Returned (first_truthy results))
  end.

(** One sample of [analyzeImageProperties], lines 72-81. *)
Definition analysis_sample (world : World) (image : Jimp)
    (acc : Q * Z * Z) (i : nat) : Q * Z * Z :=
  let '(totalBrightness, darkPixels, lightPixels) := acc in
  let x := Qfloor (Math_random world (2 * i) * inject_Z (Z.of_nat (getWidth image))) in
  let y := Qfloor (Math_random world (2 * i + 1)
                   * inject_Z (Z.of_nat (getHeight image))) in
  let rgba := pixel_at image (Z.to_nat x) (Z.to_nat y) in
  let brightness := (inject_Z (red rgba + green rgba + blue rgba) / 3)%Q in
  if Qgtb 128 brightness
  then ((totalBrightness + brightness)%Q, darkPixels + 1, lightPixels)
  else ((totalBrightness + brightness)%Q, darkPixels, lightPixels + 1).

(** [analyzeImageProperties], lines 61-98: it only logs. *)
Definition analyzeImageProperties (world : World) (image : Jimp) : Eff unit :=
  let sampleSize := Nat.min 1000 (getWidth image * getHeight image) in
  let '(totalBrightness, darkPixels, lightPixels) :=
    foldl (analysis_sample world image) (0%Q, 0, 0) (seq 0 sampleSize) in
  let over_samples (q : Q) : option Q :=
    if (sampleSize =? 0)%nat then None
    else Some (q / inject_Z (Z.of_nat sampleSize))%Q in
  let avgBrightness := over_samples totalBrightness in
  let contrast := over_samples (inject_Z (Z.abs (darkPixels - lightPixels))) in
  logger (DbgImageAnalysis avgBrightness contrast darkPixels lightPixels) ;;;
  match avgBrightness with
  | Some avg =>
      if Qgtb 64 avg then logger DbgVeryDark
      else if Qgtb avg 192 then logger DbgVeryLight
      else ret tt
  | None => ret tt
  end.

(** The loop of lines 114-118 from the [k]-th version on. *)
Fixpoint write_versions (world : World) (k : nat) (names : list string) : Eff unit :=
  match names with
  | [] => ret tt
  | name :: rest =>
      let now := Date_now world k in
      match writeAsync world name now with
      | Some error => (Thrown error, [EvJimp (CallWriteAsync name now)])
      | None =>
          emit (EvJimp (CallWriteAsync name now)) ;;;
          logger (DbgImageSaved name now) ;;;
          write_versions world (S k) rest
      end
  end.

(** [saveDebugVersions], lines 100-123. *)
Definition saveDebugVersions (world : World) (image : Jimp) : Eff unit :=
  try_catch
    (if debug_images world then
       greyscale image ;;;
       let* g := greyscale image in
       let* c := contrast (1 # 2) g in
       normalize c ;;;
       applyThreshold image ;;;
       write_versions world 0 ["original"; "grayscale"; "contrast"; "threshold"]
     else ret tt)
    (fun error => logger (DbgSaveFailed error)).

(** The seven methods in the order of the array literal, lines 31-39. *)
Definition methods : list string :=
  ["original"; "grayscale"; "contrast"; "threshold"; "resize";
   "aggressive-threshold"; "edge-enhance"]%string.

(** [decodeQrFromBuffer], lines 19-59.  The seven calls run one after the
    other while the array literal is evaluated; their continuations run,
    in the same order, once the outer [await] yields. *)
Definition decodeQrFromBuffer (world : World) (buffer : list Z)
    : Eff (option string) :=
  try_catch
    (logger DbgStarting ;;;
     let* image := read buffer in
     logger (DbgImageLoaded (getWidth image) (getHeight image)) ;;;
     analyzeImageProperties world image ;;;
     let promises := tryDecodeWithProcessing image <$> methods in
     ((Returned tt,
       concat (during_call <$> promises) ++ concat (after_await <$> promises))
        : Eff unit) ;;;
     let results := allSettled (settled <$> promises) in
     match first_truthy results with
     | Some value => ret (Some value)
     | None =>
         logger DbgNoQrFound ;;;
         saveDebugVersions world image ;;;
         ret None
     end)
    (fun error => logger (ErrUnexpected error) ;;; throw error).

(** ** The controller (qr.controller.ts, lines 45-95) *)

Record File : Type := MkFile {
  originalname : string;
  file_size : Z;
  mimetype : string;
  buffer : list Z
}.

Record Metadata : Type := MkMetadata {
  filename : string;
  metadata_size : Z;
  metadata_mimetype : string
}.

Record Response : Type := MkResponse {
  success : bool;
  text : option string;
  error : option string;
  metadata : Metadata
}.

Definition metadata_of (file : File) : Metadata :=
  MkMetadata (originalname file) (file_size file) (mimetype file).

Definition decodeQr (world : World) (file : option File) : Eff Response :=
  match file with
  | None => logger CtlNoFile ;;; throw (BadRequestException "File is required")
  | Some file =>
      logger (CtlProcessing (originalname file)) ;;;
      try_catch
        (let* decodedText := decodeQrFromBuffer world (buffer file) in
         match decodedText with
         | Some value =>
             if truthy value then
               logger (CtlDecoded value) ;;;
               ret (MkResponse true (Some value) None (metadata_of file))
             else
               logger (CtlNotFound (originalname file)) ;;;
               ret (MkResponse false None (Some "No QR code found in the image"%string)
                               (metadata_of file))
         | None =>
             logger (CtlNotFound (originalname file)) ;;;
             ret (MkResponse false None (Some "No QR code found in the image"%string)
                             (metadata_of file))
         end)
        (fun error =>
           logger (CtlDecodeError error) ;;;
           ret (MkResponse false None (Some "Failed to process the image"%string)
                           (metadata_of file)))
  end.
End Service.

Arguments fulfilled {A} value.
Arguments rejected {A} reason.
Arguments MkPromise {A} _ _ _.
Arguments during_call {A} _.
Arguments after_await {A} _.
Arguments settled {A} _.

(** ** Reading a run *)

(** The decoder calls of a trace, each with the method that was announced
    last before it. *)
Fixpoint attempts_from (current : string) (trace : list Event)
    : list (string * BinarizerType) :=
  match trace with
  | [] => []
  | EvLog (DbgTrying method) :: rest => attempts_from method rest
  | EvDecode binarizerType :: rest =>
      (current, binarizerType) :: attempts_from current rest
  | _ :: rest => attempts_from current rest
  end.

Definition attempts (trace : list Event) : list (string * BinarizerType) :=
  attempts_from EmptyString trace.

Fixpoint method_after (current : string) (trace : list Event) : string :=
  match trace with
  | [] => current
  | EvLog (DbgTrying method) :: rest => method_after method rest
  | _ :: rest => method_after current rest
  end.

(** Neither a decoder call nor the announcement of a method. *)
Definition silent_event (ev : Event) : bool :=
  match ev with
  | EvDecode _ => false
  | EvLog (DbgTrying _) => false
  | _ => true
  end.

(** The fourteen pairs in the order the specification fixes: the methods in
    order and, for each, the hybrid binarizer before the global one. *)
Definition ladder_of (ms : list string) : list (string * BinarizerType) :=
  flat_map (fun method => [(method, hybrid); (method, global)]) ms.

Definition ladder : list (string * BinarizerType) := ladder_of methods.

Section Attempts.
Context `{JimpLibrary} `{ZXingLibrary}.

(** What the decoder answers on one pair; [None] when the preprocessing of
    the method threw, so that the decoder was not called. *)
Definition attempt_outcome (image : Jimp) (method : string)
    (binarizerType : BinarizerType) : option (Completion string) :=
  match fst (preprocess method image) with
  | Returned processedImage =>
      Some (reader_decode binarizerType (luminanceSource processedImage))
  | Thrown _ => None
  end.

(** The text an attempt contributes: the decoded text when it is truthy. *)
Definition attempt_text (image : Jimp) (method : string)
    (binarizerType : BinarizerType) : option string :=
  match attempt_outcome image method binarizerType with
  | Some (Returned decodedText) =>
      if truthy decodedText then Some decodedText else None
  | _ => None
  end.

(** The text of the earliest pair that contributes one. *)
Fixpoint first_text (image : Jimp) (pairs : list (string * BinarizerType))
    : option string :=
  match pairs with
  | [] => None
  | (method, binarizerType) :: rest =>
      match attempt_text image method binarizerType with
      | Some value => Some value
      | None => first_text image rest
      end
  end.

(** The pairs a method tries: both, unless its preprocessing threw. *)
Definition pairs_tried (image : Jimp) (method : string)
    : list (string * BinarizerType) :=
  match fst (preprocess method image) with
  | Returned _ => [(method, hybrid); (method, global)]
  | Thrown _ => []
  end.



(** The three failures of the decoder that [decodeWithBinarizer] expects. *)
Definition expected_failure (e : JsError) : bool :=
  match e with
  | NotFoundException | ChecksumException | FormatException => true
  | _ => false
  end.
End Attempts.

(** ** Stand-ins for the collaborators, for concrete runs *)

Definition gray_pixel (v : Z) : RGBA := MkRGBA v v v 255.

(** Reads a buffer as a 1 x 1 image of its first byte; every operation
    returns its image, [resize] with the new dimensions. *)
Definition stubJimp : JimpLibrary := {|
  Jimp_read buffer :=
    match buffer with
    | [] => Thrown (OtherError "Could not find MIME for Buffer")
    | v :: _ => Returned (MkJimp 1 1 [gray_pixel v])
    end;
  Jimp_greyscale image := Returned image;
  Jimp_contrast _ image := Returned image;
  Jimp_normalize image := Returned image;
  Jimp_resize w h image := Returned (MkJimp w h (replicate (w * h) (gray_pixel 0)));
  Jimp_convolute _ image := Returned image
|}.

(** A decoder that gives the same answer on every bitmap. *)
Definition constantZXing (answer : Completion string) : ZXingLibrary :=
  {| reader_decode _ _ := answer |}.

(** A decoder that fails unexpectedly under the hybrid binarizer and finds
    nothing under the global one. *)
Definition crashingZXing : ZXingLibrary := {|
  reader_decode binarizerType _ :=
    match binarizerType with
    | hybrid => Thrown (OtherError "Cannot read properties of undefined")
    | global => Thrown NotFoundException
    end
|}.

(** A decoder that reads the hybrid bitmap as an empty text and the global
    one as a URL. *)
Definition emptyFirstZXing : ZXingLibrary := {|
  reader_decode binarizerType _ :=
    match binarizerType with
    | hybrid => Returned EmptyString
    | global => Returned "https://example.org"%string
    end
|}.

Definition quietWorld : World :=
  MkWorld (fun _ => 0%Q) false (fun _ => 0) (fun _ _ => None).

Definition debugWorld : World :=
  MkWorld (fun k => (Z.of_nat (k mod 7) # 8)%Q) true
          (fun k => 1700000000000 + Z.of_nat k) (fun _ _ => None).

Definition sample_file : File :=
  MkFile "qr.png" 1 "image/png" [200].

(** 501 pixels wide and one pixel high. *)
Definition wide_image : Jimp := MkJimp 501 1 (replicate 501 (gray_pixel 255)).

(** ** The bearer-token guard (auth/auth.guard.ts) *)

From Stdlib Require Import Ascii.

(** [s.split(sep)] for a separator of one character: the pieces between the
    separators, in order; a string without the separator is its only
    piece. *)
Fixpoint js_split (separator : Ascii.ascii) (s : string) : list string :=
  match s with
  | EmptyString => [EmptyString]
  | String c rest =>
      if Ascii.eqb c separator then EmptyString :: js_split separator rest
      else match js_split separator rest with
           | piece :: pieces => String c piece :: pieces
           | [] => [String c EmptyString]
           end
  end.

(** [extractTokenFromHeader]: [const [type, token] = authHeader.split(' ')],
    then [type === 'Bearer' ? token : undefined]. *)
Definition extractTokenFromHeader (authHeader : string) : option string :=
  let pieces := js_split " "%char authHeader in
  match pieces !! 0%nat with
  | Some type => if String.eqb type "Bearer" then pieces !! 1%nat else None
  | None => None
  end.

Inductive HttpException : Type :=
  | UnauthorizedException (message : string).

Inductive AuthLog : Type :=
  | WarnMissingHeader
  | WarnInvalidFormat
  | WarnInvalidToken
  | DbgAuthenticated.

(** [canActivate]: [authorization] is [request.headers.authorization] and
    [validToken] what [configService.get('authToken')] returns, each
    [undefined] or a string.  The function returns [true] or throws. *)
Definition canActivate (validToken authorization : option string)
    : (HttpException + bool) * list AuthLog :=
  match authorization with
  | None =>
      (inl (UnauthorizedException "Missing Authorization header"), [WarnMissingHeader])
  | Some authHeader =>
      if negb (truthy authHeader) then
        (inl (UnauthorizedException "Missing Authorization header"), [WarnMissingHeader])
      else
        match extractTokenFromHeader authHeader with
        | None =>
            (inl (UnauthorizedException "Invalid Authorization header format"),
             [WarnInvalidFormat])
        | Some token =>
            if negb (truthy token) then
              (inl (UnauthorizedException "Invalid Authorization header format"),
               [WarnInvalidFormat])
            else if negb (bool_decide (Some token = validToken)) then
              (inl (UnauthorizedException "Invalid bearer token"), [WarnInvalidToken])
            else (inr true, [DbgAuthenticated])
        end
  end.

(** The string has no space in it. *)
Fixpoint spaceless (s : string) : bool :=
  match s with
  | EmptyString => true
  | String c rest => negb (Ascii.eqb c " "%char) && spaceless rest
  end.

(** ** The upload filter of the controller (qr.controller.ts, lines 34-42) *)

Definition image_subtypes : list string :=
  ["jpg"; "jpeg"; "png"; "gif"; "bmp"; "webp"]%string.

(** The pattern [/\/(jpg|jpeg|png|gif|bmp|webp)$/] tried at the start of
    [s]: a slash, one of the alternatives, and the end of the input. *)
Definition subtype_pattern_here (s : string) : bool :=
  existsb (fun subtype => String.eqb s (String "/"%char subtype)) image_subtypes.

(** [mimetype.match(pattern)] is not [null]: the pattern matches at some
    position of the string. *)
Fixpoint subtype_pattern_matches (s : string) : bool :=
  subtype_pattern_here s ||
  match s with
  | EmptyString => false
  | String _ rest => subtype_pattern_matches rest
  end.

(** [fileFilter]: the two arguments handed to the callback [cb]. *)
Definition fileFilter (mimetype : string) : option JsError * bool :=
  if negb (subtype_pattern_matches mimetype)
  then (Some (BadRequestException "Only image files are allowed"), false)
  else (None, true).

(** ** Grey images and the rows of the luminance source *)

(** A pixel whose three colour bytes agree. *)
Definition is_grey (p : RGBA) : Prop := red p = green p /\ green p = blue p.

(** A pixel that is pure black or pure white. *)
Definition black_or_white_pixel (p : RGBA) : Prop :=
  is_grey p /\ (red p = 0 \/ red p = 255).

(** [getRow(y, row)] of the luminance source, lines 307-315, with the
    optional buffer [row]: the slice of the matrix from [y * width] to
    [y * width + width] is copied to the start of the buffer, a fresh
    zero-filled one of [width] entries when none was passed or the one
    passed is too short. *)
Definition getRow_into (src : LuminanceSource) (y : nat) (row : option (list Z))
    : list Z :=
  let width := source_width src in
  let start := (y * width)%nat in
  let slice := take width (drop start (getMatrix src)) in
  let row := match row with
             | Some given =>
                 if (length given <? width)%nat then replicate width 0 else given
             | None => replicate width 0
             end in
  slice ++ drop (length slice) row.

(** ** Files written by a run *)

(** The [writeAsync] calls of a trace: file name and time stamp. *)
Definition writes (trace : list Event) : list (string * Z) :=
  omap (fun ev => match ev with
                  | EvJimp (CallWriteAsync name now) => Some (name, now)
                  | _ => None
                  end) trace.

Definition not_a_write (ev : Event) : bool :=
  match ev with
  | EvJimp (CallWriteAsync _ _) => false
  | _ => true
  end.

(** ** The configuration (config/configuration.ts) *)






(** ** Properties of [calculateOtsuThreshold] *)

Lemma Qgtb_true (x y : Q) : Qgtb x y = true <-> (y < x)%Q.
Proof.
  unfold Qgtb. rewrite negb_true_iff. split.
  - intros H. apply Qnot_le_lt. intros Hle.
    apply Qle_bool_iff in Hle. congruence.
  - intros H. destruct (Qle_bool x y) eqn:E; [|reflexivity].
    apply Qle_bool_iff in E. exfalso. exact (Qlt_not_le _ _ H E).
Qed.

Lemma Qgtb_false (x y : Q) : Qgtb x y = false <-> (x <= y)%Q.
Proof.
  unfold Qgtb. rewrite negb_false_iff. apply Qle_bool_iff.
Qed.

Lemma jsdiv_nonzero (a b : Z) :
  b <> 0 -> jsdiv a b = Some (inject_Z a / inject_Z b)%Q.
Proof.
  intros Hb. unfold jsdiv. destruct (Z.eqb_spec b 0); [contradiction|reflexivity].
Qed.

(** The guards [wB === 0] and [wF === 0] stand before the divisions: no
    iteration divides by zero, whatever the array holds. *)
Lemma otsu_iteration_defined histogram total sum i v :
  is_Some (otsu_iteration histogram total sum i v).
Proof.
  unfold otsu_iteration.
  destruct (Z.eqb_spec (wB v + bin histogram i) 0) as [|HwB]; [eauto|].
  destruct (Z.eqb_spec (total - (wB v + bin histogram i)) 0) as [|HwF]; [eauto|].
  rewrite (jsdiv_nonzero _ _ HwB). cbn [mbind option_bind].
  rewrite (jsdiv_nonzero _ _ HwF). cbn [mbind option_bind].
  match goal with |- context [Qgtb ?a ?b] => destruct (Qgtb a b) end; eauto.
Qed.

Lemma otsu_iteration_skip histogram total sum i v :
  wB v + bin histogram i = 0 ->
  otsu_iteration histogram total sum i v
  = Some (GoOn (MkOtsuVars (sumB v) (wB v + bin histogram i) (wF v)
                  (maxVariance v) (threshold v))).
Proof.
  intros H. unfold otsu_iteration.
  destruct (Z.eqb_spec (wB v + bin histogram i) 0); [reflexivity|contradiction].
Qed.

Lemma otsu_iteration_break histogram total sum i v :
  wB v + bin histogram i <> 0 ->
  total - (wB v + bin histogram i) = 0 ->
  otsu_iteration histogram total sum i v
  = Some (Break (MkOtsuVars (sumB v) (wB v + bin histogram i)
                   (total - (wB v + bin histogram i))
                   (maxVariance v) (threshold v))).
Proof.
  intros HwB HwF. unfold otsu_iteration.
  destruct (Z.eqb_spec (wB v + bin histogram i) 0); [contradiction|].
  destruct (Z.eqb_spec (total - (wB v + bin histogram i)) 0);
    [reflexivity|contradiction].
Qed.

Lemma otsu_iteration_candidate histogram total sum i v :
  wB v + bin histogram i <> 0 ->
  total - (wB v + bin histogram i) <> 0 ->
  otsu_iteration histogram total sum i v
  = let w_b := wB v + bin histogram i in
    let w_f := total - (wB v + bin histogram i) in
    let sum_b := sumB v + Z.of_nat i * bin histogram i in
    Some (GoOn
      (if Qgtb (otsu_variance w_b w_f sum_b sum) (maxVariance v)
       then MkOtsuVars sum_b w_b w_f (otsu_variance w_b w_f sum_b sum) (Z.of_nat i)
       else MkOtsuVars sum_b w_b w_f (maxVariance v) (threshold v))).
Proof.
  intros HwB HwF. unfold otsu_iteration.
  destruct (Z.eqb_spec (wB v + bin histogram i) 0); [contradiction|].
  destruct (Z.eqb_spec (total - (wB v + bin histogram i)) 0); [contradiction|].
  rewrite (jsdiv_nonzero _ _ HwB). cbn [mbind option_bind].
  rewrite (jsdiv_nonzero _ _ HwF). cbn [mbind option_bind].
  cbv zeta. fold (otsu_variance (wB v + bin histogram i)
    (total - (wB v + bin histogram i))
    (sumB v + Z.of_nat i * bin histogram i) sum).
  destruct (Qgtb _ _); reflexivity.
Qed.

Lemma otsu_loop_defined histogram total sum n :
  forall i v, is_Some (otsu_loop histogram total sum n i v).
Proof.
  induction n as [|n IH]; intros i v; cbn [otsu_loop]; [eauto|].
  destruct (otsu_iteration_defined histogram total sum i v) as [[v'|v'] ->]; eauto.
Qed.

Lemma calculateOtsuThreshold_defined histogram :
  is_Some (calculateOtsuThreshold histogram).
Proof.
  unfold calculateOtsuThreshold.
  destruct (length histogram <? 256)%nat; [eauto|].
  cbv zeta.
  match goal with |- context [otsu_loop ?h ?t ?s ?n ?i ?v] =>
    destruct (otsu_loop_defined h t s n i v) as [v' ->] end.
  cbn. eauto.
Qed.

(** *** Prefix sums of a histogram *)

Lemma bin_lookup histogram i x : histogram !! i = Some x -> bin histogram i = x.
Proof. unfold bin. intros ->. reflexivity. Qed.

Lemma bin_outside histogram i : (length histogram <= i)%nat -> bin histogram i = 0.
Proof. unfold bin. intros H. rewrite lookup_ge_None_2; [reflexivity|lia]. Qed.

Lemma foldl_add_shift (l : list Z) (a : Z) : foldl Z.add a l = a + foldl Z.add 0 l.
Proof.
  revert a. induction l as [|x l IH]; intros a; cbn [foldl]; [lia|].
  rewrite (IH (a + x)), (IH (0 + x)). lia.
Qed.

Lemma weight_below_take histogram n :
  (n <= length histogram)%nat ->
  weight_below histogram n = foldl Z.add 0 (take n histogram).
Proof.
  induction n as [|n IH]; intros Hn; [reflexivity|].
  cbn [weight_below].
  destruct (lookup_lt_is_Some_2 histogram n) as [x Hx]; [lia|].
  rewrite (take_S_r _ _ _ Hx), foldl_app. cbn [foldl].
  rewrite <- IH by lia. rewrite (bin_lookup _ _ _ Hx). reflexivity.
Qed.

Lemma total_weight_below histogram :
  foldl Z.add 0 histogram = weight_below histogram (length histogram).
Proof.
  rewrite weight_below_take by lia. rewrite firstn_all. reflexivity.
Qed.

Lemma sum_moment_below histogram n :
  foldl (fun s i => s + Z.of_nat i * bin histogram i) 0 (seq 0 n)
  = moment_below histogram n.
Proof.
  induction n as [|n IH]; [reflexivity|].
  rewrite seq_S, foldl_app. cbn [foldl moment_below Nat.add].
  rewrite IH. reflexivity.
Qed.

Section NonNegativeCounts.
Variable histogram : list Z.
Hypothesis counts_nonneg : Forall (fun c => 0 <= c) histogram.

Lemma bin_nonneg i : 0 <= bin histogram i.
Proof.
  unfold bin. destruct (histogram !! i) as [x|] eqn:E; cbn; [|lia].
  exact (Forall_lookup_1 _ _ _ _ counts_nonneg E).
Qed.

Lemma weight_below_nonneg n : 0 <= weight_below histogram n.
Proof.
  induction n as [|n IH]; cbn [weight_below]; [lia|].
  pose proof (bin_nonneg n). lia.
Qed.

Lemma weight_below_mono n m :
  (n <= m)%nat -> weight_below histogram n <= weight_below histogram m.
Proof.
  induction 1 as [|m _ IH]; [lia|].
  cbn [weight_below]. pose proof (bin_nonneg m). lia.
Qed.

(** Bins below [n <= t + 1] have intensity at most [t]. *)
Lemma moment_below_upper t n :
  (n <= S t)%nat ->
  moment_below histogram n <= Z.of_nat t * weight_below histogram n.
Proof.
  induction n as [|n IH]; intros Hn; cbn [moment_below weight_below]; [lia|].
  pose proof (bin_nonneg n). specialize (IH ltac:(lia)). nia.
Qed.

(** Bins from [n] on have intensity at least [n]. *)
Lemma moment_below_lower n m :
  (n <= m)%nat ->
  Z.of_nat n * (weight_below histogram m - weight_below histogram n)
  <= moment_below histogram m - moment_below histogram n.
Proof.
  induction 1 as [|m Hm IH]; [lia|].
  cbn [moment_below weight_below]. pose proof (bin_nonneg m). nia.
Qed.

Lemma weight_below_beyond n :
  (length histogram <= n)%nat ->
  weight_below histogram n = weight_below histogram (length histogram).
Proof.
  induction 1 as [|m Hm IH]; [reflexivity|].
  cbn [weight_below]. rewrite IH, bin_outside by lia. lia.
Qed.
End NonNegativeCounts.

Lemma weight_below_0 histogram : weight_below histogram 0 = 0.
Proof. reflexivity. Qed.

Lemma moment_below_0 histogram : moment_below histogram 0 = 0.
Proof. reflexivity. Qed.

Lemma weight_below_S histogram i :
  weight_below histogram (S i) = weight_below histogram i + bin histogram i.
Proof. reflexivity. Qed.

Lemma moment_below_S histogram i :
  moment_below histogram (S i)
  = moment_below histogram i + Z.of_nat i * bin histogram i.
Proof. reflexivity. Qed.

#[local] Opaque weight_below moment_below.

Section OtsuScan.
Variable histogram : list Z.
Hypothesis bins_256 : length histogram = 256%nat.
Hypothesis counts_nonneg : Forall (fun c => 0 <= c) histogram.

Local Abbreviation W := (weight_below histogram).
Local Abbreviation M := (moment_below histogram).
Local Abbreviation var := (between_class_variance histogram).

Lemma candidate_weights t :
  (t <= 255)%nat -> candidate histogram t ->
  0 < otsu_wB histogram t /\ 0 < otsu_wF histogram t.
Proof.
  intros Ht [Hb Hf]. unfold otsu_wF, otsu_wB in *.
  pose proof (weight_below_nonneg histogram counts_nonneg (S t)).
  pose proof (weight_below_mono histogram counts_nonneg (S t) 256 ltac:(lia)).
  lia.
Qed.

Lemma candidate_means t :
  (t <= 255)%nat -> candidate histogram t ->
  (inject_Z (M (S t)) / inject_Z (otsu_wB histogram t) <= inject_Z (Z.of_nat t))%Q /\
  (inject_Z (Z.of_nat t) + 1 <=
     inject_Z (M 256 - M (S t)) / inject_Z (otsu_wF histogram t))%Q.
Proof.
  intros Ht Hc. destruct (candidate_weights t Ht Hc) as [Hb Hf].
  split.
  - apply Qle_shift_div_r.
    + rewrite <- (Zlt_Qlt 0). exact Hb.
    + rewrite <- inject_Z_mult, <- Zle_Qle.
      exact (moment_below_upper histogram counts_nonneg t (S t) ltac:(lia)).
  - apply Qle_shift_div_l.
    + rewrite <- (Zlt_Qlt 0). exact Hf.
    + change 1%Q with (inject_Z 1).
      rewrite <- inject_Z_plus, <- inject_Z_mult, <- Zle_Qle.
      pose proof (moment_below_lower histogram counts_nonneg (S t) 256 ltac:(lia)).
      unfold otsu_wF, otsu_wB. lia.
Qed.

Lemma variance_pos t :
  (t <= 255)%nat -> candidate histogram t -> (0 < var t)%Q.
Proof.
  intros Ht Hc. destruct (candidate_weights t Ht Hc) as [Hb Hf].
  destruct (candidate_means t Ht Hc) as [HmB HmF].
  unfold between_class_variance. cbv zeta.
  rewrite Zlt_Qlt in Hb, Hf.
  set (mB := (inject_Z (M (S t)) / inject_Z (otsu_wB histogram t))%Q) in *.
  set (mF := (inject_Z (M 256 - M (S t)) / inject_Z (otsu_wF histogram t))%Q) in *.
  set (b := inject_Z (otsu_wB histogram t)) in *.
  set (f := inject_Z (otsu_wF histogram t)) in *.
  clearbody mB mF b f. change (inject_Z 0) with 0%Q in *.
  assert (Hd : (mB - mF <= -1)%Q) by lra.
  assert (Hsq : (1 <= (mB - mF) ^ 2)%Q).
  { simpl Qpower. nra. }
  assert (Hbf : (0 < b * f)%Q) by nra.
  nra.
Qed.

Lemma total_is_weight : foldl Z.add 0 histogram = W 256.
Proof. rewrite total_weight_below, bins_256. reflexivity. Qed.

Lemma best_upto_extend i j thr mx :
  (i <= j)%nat ->
  (forall k, (i <= k < j)%nat -> ~ candidate histogram k) ->
  best_upto histogram i thr mx -> best_upto histogram j thr mx.
Proof.
  intros Hij Hnone [(Hno & -> & Hmx)|(t & Ht & -> & Hc & Hmx & Hbest)].
  - left. split; [|split; [reflexivity|exact Hmx]].
    intros k Hk. destruct (Nat.lt_ge_cases k i); [auto|apply Hnone; lia].
  - right. exists t. split; [lia|]. split; [reflexivity|].
    split; [exact Hc|]. split; [exact Hmx|].
    intros k Hk Hck. destruct (Nat.lt_ge_cases k i); [auto|].
    exfalso. apply (Hnone k); [lia|exact Hck].
Qed.

(** The expression of line 151 is the specification's
    [wB * wF * (mB - mF)^2]. *)
Lemma variance_line_151 i :
  (otsu_variance (otsu_wB histogram i) (otsu_wF histogram i) (M (S i)) (M 256)
   == var i)%Q.
Proof.
  unfold between_class_variance, otsu_variance. cbv zeta. simpl Qpower. ring.
Qed.

Lemma otsu_loop_best n :
  forall i v,
    (i + n = 256)%nat ->
    wB v = W i -> sumB v = M i ->
    best_upto histogram i (threshold v) (maxVariance v) ->
    exists v',
      otsu_loop histogram (W 256) (M 256) n i v = Some v' /\
      best_upto histogram 256 (threshold v') (maxVariance v').
Proof.
  induction n as [|n IH]; intros i v Hin HwB HsumB Hbest.
  - exists v. split; [reflexivity|]. replace 256%nat with i by lia. exact Hbest.
  - cbn [otsu_loop].
    assert (HwB1 : wB v + bin histogram i = otsu_wB histogram i).
    { unfold otsu_wB. rewrite weight_below_S, HwB. reflexivity. }
    assert (HwF1 : W 256 - (wB v + bin histogram i) = otsu_wF histogram i).
    { unfold otsu_wF. rewrite HwB1. reflexivity. }
    assert (HsumB1 : sumB v + Z.of_nat i * bin histogram i = M (S i)).
    { rewrite moment_below_S, HsumB. reflexivity. }
    destruct (Z.eq_dec (otsu_wB histogram i) 0) as [Hz|HnzB].
    { (* continue: nothing counted yet *)
      rewrite otsu_iteration_skip by (rewrite HwB1; exact Hz).
      assert (Hbin : bin histogram i = 0).
      { unfold otsu_wB in Hz. rewrite weight_below_S in Hz.
        pose proof (weight_below_nonneg histogram counts_nonneg i).
        pose proof (bin_nonneg histogram counts_nonneg i). lia. }
      apply IH; cbn [wB sumB threshold maxVariance].
      - lia.
      - rewrite weight_below_S, <- HwB. reflexivity.
      - rewrite moment_below_S, Hbin. lia.
      - apply (best_upto_extend i); [lia| |exact Hbest].
        intros k Hk. replace k with i by lia. intros [Hc _]. contradiction. }
    destruct (Z.eq_dec (otsu_wF histogram i) 0) as [Hz|HnzF].
    { (* break: no foreground left, here and at every later index *)
      rewrite otsu_iteration_break
        by (rewrite ?HwF1, ?HwB1; assumption).
      eexists. split; [reflexivity|]. cbn [threshold maxVariance].
      apply (best_upto_extend i); [lia| |exact Hbest].
      intros k Hk [_ Hf]. apply Hf. unfold otsu_wF, otsu_wB in *.
      pose proof (weight_below_mono histogram counts_nonneg (S i) (S k) ltac:(lia)).
      pose proof (weight_below_mono histogram counts_nonneg (S k) 256 ltac:(lia)).
      lia. }
    assert (Hci : candidate histogram i) by (split; assumption).
    rewrite otsu_iteration_candidate by (rewrite ?HwF1, ?HwB1; assumption).
    cbv zeta. rewrite HwF1, HwB1, HsumB1.
    pose proof (variance_line_151 i) as Hvar.
    pose proof (variance_pos i ltac:(lia) Hci) as Hpos.
    set (variance := otsu_variance _ _ _ _) in *. clearbody variance.
    destruct (Qgtb variance (maxVariance v)) eqn:Hcmp.
    + (* strictly larger: the maximum moves to i *)
      apply Qgtb_true in Hcmp.
      apply IH; cbn [wB sumB threshold maxVariance]; [lia|reflexivity|reflexivity|].
      right. exists i. split; [lia|]. split; [reflexivity|].
      split; [exact Hci|]. split; [exact Hvar|].
      intros k Hk Hck. destruct (Nat.eq_dec k i) as [->|Hne].
      { split; [apply Qle_refl|lia]. }
      destruct Hbest as [(Hno & _ & _)|(t & Ht & _ & Hct & Hmx & Hb)].
      { exfalso. apply (Hno k); [lia|exact Hck]. }
      destruct (Hb k ltac:(lia) Hck) as [Hle _].
      rewrite Hmx, Hvar in Hcmp.
      split.
      * apply Qlt_le_weak. eapply Qle_lt_trans; eassumption.
      * intros Hge. exfalso.
        apply (Qlt_irrefl (var i)).
        eapply Qle_lt_trans; [exact Hge|]. eapply Qle_lt_trans; eassumption.
    + (* not larger: the earlier index stays *)
      apply Qgtb_false in Hcmp.
      apply IH; cbn [wB sumB threshold maxVariance]; [lia|reflexivity|reflexivity|].
      destruct Hbest as [(Hno & _ & Hmx)|(t & Ht & Hthr & Hct & Hmx & Hb)].
      { exfalso. rewrite Hmx, Hvar in Hcmp.
        exact (Qlt_not_le _ _ Hpos Hcmp). }
      right. exists t. split; [lia|]. split; [exact Hthr|].
      split; [exact Hct|]. split; [exact Hmx|].
      intros k Hk Hck. destruct (Nat.eq_dec k i) as [->|Hne].
      { rewrite Hmx, Hvar in Hcmp. split; [exact Hcmp|lia]. }
      apply Hb; [lia|exact Hck].
Qed.

(** The scan returns the first candidate that attains the largest
    between-class variance, and 0 when there is no candidate. *)
Lemma otsu_first_maximum :
  exists t : nat,
    calculateOtsuThreshold histogram = Some (Z.of_nat t) /\
    (t <= 255)%nat /\
    ((forall k, (k <= 255)%nat -> ~ candidate histogram k) -> t = 0%nat) /\
    (forall k, (k <= 255)%nat -> candidate histogram k ->
       candidate histogram t /\
       (var k <= var t)%Q /\
       ((var t <= var k)%Q -> (t <= k)%nat)).
Proof.
  unfold calculateOtsuThreshold. rewrite bins_256.
  change (256 <? 256)%nat with false. cbv beta match zeta.
  rewrite total_is_weight, sum_moment_below.
  destruct (otsu_loop_best 256 0 otsu_init) as (v' & -> & Hbest);
    [reflexivity|reflexivity|reflexivity| |].
  { left. split; [intros k Hk; lia|split; reflexivity]. }
  cbn [fmap option_fmap option_map].
  destruct Hbest as [(Hno & -> & _)|(t & Ht & -> & Hc & _ & Hb)].
  - exists 0%nat. split; [reflexivity|]. split; [lia|]. split; [reflexivity|].
    intros k Hk Hck. exfalso. apply (Hno k); [lia|exact Hck].
  - exists t. split; [reflexivity|]. split; [lia|]. split.
    + intros Hno. exfalso. apply (Hno t); [lia|exact Hc].
    + intros k Hk Hck. split; [exact Hc|]. apply Hb; [lia|exact Hck].
Qed.
End OtsuScan.

(** *** Two isolated peaks *)

Section TwoPeaks.
Variables (a b : nat) (na nb : Z).
Hypothesis a_lt_b : (a < b)%nat.
Hypothesis b_le_255 : (b <= 255)%nat.
Hypothesis na_pos : 0 < na.
Hypothesis nb_pos : 0 < nb.

Local Abbreviation peaks := (two_peaks a b na nb).

Lemma two_peaks_length : length peaks = 256%nat.
Proof. unfold two_peaks. rewrite !length_insert, length_replicate. reflexivity. Qed.

Lemma two_peaks_nonneg : Forall (fun c => 0 <= c) peaks.
Proof.
  unfold two_peaks. apply Forall_insert; [|lia].
  apply Forall_insert; [|lia].
  apply Forall_replicate. lia.
Qed.

Lemma two_peaks_bin k :
  bin peaks k = if decide (k = b) then nb else if decide (k = a) then na else 0.
Proof.
  unfold bin, two_peaks.
  destruct (decide (k = b)) as [->|Hb].
  { rewrite list_lookup_insert_eq; [reflexivity|].
    rewrite length_insert, length_replicate. lia. }
  rewrite list_lookup_insert_ne by congruence.
  destruct (decide (k = a)) as [->|Ha].
  { rewrite list_lookup_insert_eq; [reflexivity|].
    rewrite length_replicate. lia. }
  rewrite list_lookup_insert_ne by congruence.
  destruct (replicate 256 0 !! k) as [x|] eqn:E; [|reflexivity].
  apply lookup_replicate in E as [-> _]. reflexivity.
Qed.

Lemma two_peaks_weight n :
  weight_below peaks n
  = (if decide (a < n)%nat then na else 0) + (if decide (b < n)%nat then nb else 0).
Proof.
  induction n as [|n IH]; [rewrite weight_below_0; repeat case_decide; lia|].
  rewrite weight_below_S, IH, two_peaks_bin.
  repeat case_decide; lia.
Qed.

Lemma two_peaks_moment n :
  moment_below peaks n
  = (if decide (a < n)%nat then Z.of_nat a * na else 0)
    + (if decide (b < n)%nat then Z.of_nat b * nb else 0).
Proof.
  induction n as [|n IH]; [rewrite moment_below_0; repeat case_decide; lia|].
  rewrite moment_below_S, IH, two_peaks_bin.
  repeat case_decide; subst; lia.
Qed.

Lemma two_peaks_candidate k :
  candidate peaks k <-> (a <= k < b)%nat.
Proof.
  unfold candidate, otsu_wF, otsu_wB. rewrite !two_peaks_weight.
  repeat case_decide; lia.
Qed.

Lemma two_peaks_variance k :
  (a <= k < b)%nat ->
  between_class_variance peaks k = between_class_variance peaks a.
Proof.
  intros Hk. unfold between_class_variance, otsu_wF, otsu_wB.
  rewrite !two_peaks_weight, !two_peaks_moment.
  repeat case_decide; try lia. reflexivity.
Qed.

Lemma two_peaks_threshold :
  calculateOtsuThreshold peaks = Some (Z.of_nat a).
Proof.
  destruct (otsu_first_maximum peaks two_peaks_length two_peaks_nonneg)
    as (t & -> & _ & _ & Hbest).
  assert (Hca : candidate peaks a) by (apply two_peaks_candidate; lia).
  destruct (Hbest a ltac:(lia) Hca) as (Hct & _ & Hfirst).
  apply two_peaks_candidate in Hct.
  rewrite (two_peaks_variance t Hct) in Hfirst.
  specialize (Hfirst (Qle_refl _)).
  do 2 f_equal. lia.
Qed.
End TwoPeaks.

(** *** The uniform histogram *)

Section Uniform.
Variable c : Z.
Hypothesis c_pos : 0 < c.

Lemma uniform_length : length (uniform c) = 256%nat.
Proof. apply length_replicate. Qed.

Lemma uniform_nonneg : Forall (fun x => 0 <= x) (uniform c).
Proof. apply Forall_replicate. lia. Qed.

Lemma uniform_bin k : bin (uniform c) k = c * bin (uniform 1) k.
Proof.
  unfold bin, uniform. destruct (decide (k < 256)%nat) as [Hk|Hk].
  - rewrite !lookup_replicate_2 by exact Hk. cbn. lia.
  - rewrite !lookup_ge_None_2 by (rewrite length_replicate; lia). cbn. lia.
Qed.

Lemma uniform_weight n : weight_below (uniform c) n = c * weight_below (uniform 1) n.
Proof.
  induction n as [|n IH]; [rewrite !weight_below_0; lia|].
  rewrite !weight_below_S, IH, uniform_bin. lia.
Qed.

Lemma uniform_moment n : moment_below (uniform c) n = c * moment_below (uniform 1) n.
Proof.
  induction n as [|n IH]; [rewrite !moment_below_0; lia|].
  rewrite !moment_below_S, IH, uniform_bin. lia.
Qed.

Lemma uniform_candidate k : candidate (uniform c) k <-> candidate (uniform 1) k.
Proof.
  unfold candidate, otsu_wF, otsu_wB. rewrite !uniform_weight. nia.
Qed.

(** Scaling every count by [c] scales the variance by [c^2]. *)
Lemma uniform_variance k :
  candidate (uniform 1) k ->
  (between_class_variance (uniform c) k
   == inject_Z c * inject_Z c * between_class_variance (uniform 1) k)%Q.
Proof.
  intros [Hb Hf]. unfold between_class_variance, otsu_wF, otsu_wB in *.
  rewrite !uniform_weight, !uniform_moment.
  set (w := weight_below (uniform 1) (S k)) in *.
  set (w' := weight_below (uniform 1) 256) in *.
  set (m := moment_below (uniform 1) (S k)) in *.
  set (m' := moment_below (uniform 1) 256) in *.
  clearbody w w' m m'. cbv zeta.
  replace (c * w' - c * w) with (c * (w' - w)) by lia.
  replace (c * m' - c * m) with (c * (m' - m)) by lia.
  rewrite !inject_Z_mult. simpl Qpower.
  assert (Hc : ~ (inject_Z c == 0)%Q).
  { change 0%Q with (inject_Z 0). rewrite inject_Z_injective. lia. }
  assert (Hw : ~ (inject_Z w == 0)%Q).
  { change 0%Q with (inject_Z 0). rewrite inject_Z_injective. exact Hb. }
  assert (Hw' : ~ (inject_Z (w' - w) == 0)%Q).
  { change 0%Q with (inject_Z 0). rewrite inject_Z_injective. exact Hf. }
  field. auto.
Qed.
End Uniform.

Lemma uniform_one_weight n :
  (n <= 256)%nat -> weight_below (uniform 1) n = Z.of_nat n.
Proof.
  induction n as [|n IH]; intros Hn; [apply weight_below_0|].
  rewrite weight_below_S, IH by lia. unfold bin, uniform.
  rewrite lookup_replicate_2 by lia. cbn. lia.
Qed.

Lemma uniform_one_candidate k :
  (k <= 255)%nat -> candidate (uniform 1) k <-> (k <= 254)%nat.
Proof.
  intros Hk. unfold candidate, otsu_wF, otsu_wB.
  rewrite !uniform_one_weight by lia. lia.
Qed.

Lemma uniform_one_peak k :
  (k <= 254)%nat ->
  (between_class_variance (uniform 1) k <= between_class_variance (uniform 1) 127)%Q /\
  ((between_class_variance (uniform 1) 127 <= between_class_variance (uniform 1) k)%Q ->
   k = 127%nat).
Proof.
  intros Hk.
  assert (Hall : uniform_peak_check = true) by (vm_compute; reflexivity).
  unfold uniform_peak_check in Hall. cbv zeta in Hall.
  rewrite forallb_forall in Hall.
  specialize (Hall k ltac:(apply in_seq; lia)).
  apply andb_true_iff in Hall as [Hle Huniq].
  apply Qle_bool_iff in Hle. split; [exact Hle|].
  intros Hge. apply orb_true_iff in Huniq as [Heq|Hnot].
  - apply Nat.eqb_eq in Heq. exact Heq.
  - apply negb_true_iff in Hnot. apply Qle_bool_iff in Hge. congruence.
Qed.

Lemma uniform_threshold (c : Z) :
  0 < c -> calculateOtsuThreshold (uniform c) = Some 127.
Proof.
  intros Hc.
  destruct (otsu_first_maximum (uniform c) (uniform_length c) (uniform_nonneg c Hc))
    as (t & -> & Ht & _ & Hbest).
  assert (Hc127 : candidate (uniform 1) 127) by (apply uniform_one_candidate; lia).
  destruct (Hbest 127%nat ltac:(lia) (proj2 (uniform_candidate c Hc 127) Hc127))
    as (Hct & Hle & _).
  apply (uniform_candidate c Hc) in Hct.
  rewrite (uniform_variance c Hc 127 Hc127), (uniform_variance c Hc t Hct) in Hle.
  assert (Hcc : (0 < inject_Z c * inject_Z c)%Q).
  { rewrite <- inject_Z_mult. change 0%Q with (inject_Z 0).
    rewrite <- Zlt_Qlt. nia. }
  apply Qmult_le_l in Hle; [|exact Hcc].
  apply uniform_one_candidate in Hct; [|exact Ht].
  destruct (uniform_one_peak t Hct) as [_ Huniq].
  rewrite (Huniq Hle). reflexivity.
Qed.

(** ** Properties of the luminance extraction *)

Lemma digits2_pos_bound (m : positive) : Z.pos m < 2 ^ Z.pos (digits2_pos m).
Proof.
  induction m as [m IH|m IH|]; cbn [digits2_pos].
  - rewrite Pos2Z.inj_succ, Z.pow_succ_r by lia. lia.
  - rewrite Pos2Z.inj_succ, Z.pow_succ_r by lia. lia.
  - reflexivity.
Qed.

(** A valid binary64 mantissa has at most 53 bits. *)
Lemma valid_mantissa_bound (m : positive) (e : Z) :
  canonical_mantissa prec emax m e = true -> Z.pos m < 9007199254740992.
Proof.
  unfold canonical_mantissa, fexp, SpecFloat.emin, prec, emax.
  intros H. apply Z.eqb_eq in H.
  pose proof (digits2_pos_bound m) as Hm.
  assert (Hd : Z.pos (digits2_pos m) <= 53) by lia.
  eapply Z.lt_le_trans; [exact Hm|].
  change 9007199254740992 with (2 ^ 53).
  apply Z.pow_le_mono_r; lia.
Qed.

Lemma round_quotient_bound (m k : Z) :
  0 < m -> 45 <= k -> (k = 45 -> m < 8989607068696576) ->
  m < 9007199254740992 ->
  0 <= Z.shiftr (2 * m + 2 ^ k) (k + 1) <= 255.
Proof.
  intros Hm Hk H45 H53.
  rewrite Z.shiftr_div_pow2 by lia.
  assert (Hpow : 0 < 2 ^ k) by (apply Z.pow_pos_nonneg; lia).
  rewrite Z.pow_add_r, Z.pow_1_r by lia.
  split.
  - apply Z.div_pos; lia.
  - apply Z.lt_succ_r, Z.div_lt_upper_bound; [lia|].
    destruct (Z.eq_dec k 45) as [->|Hne].
    + specialize (H45 eq_refl). change (2 ^ 45) with 35184372088832. lia.
    + assert (H46 : 2 ^ 46 <= 2 ^ k) by (apply Z.pow_le_mono_r; lia).
      change (2 ^ 46) with 70368744177664 in H46. lia.
Qed.

Lemma round_finite_byte (m : positive) (e : Z) :
  e <= -45 -> (e = -45 -> Z.pos m < 8989607068696576) ->
  Z.pos m < 9007199254740992 ->
  0 <= round_finite false m e <= 255.
Proof.
  intros He Hm Hcanon. unfold round_finite.
  destruct (Z.leb_spec 0 e); [lia|].
  apply round_quotient_bound; [lia|lia|intros H45; apply Hm; lia|exact Hcanon].
Qed.

(** A double inside [[0, 255.5)] rounds to a byte. *)
Lemma Math_round_byte (v : float) :
  weighted_sum_in_range v = true ->
  exists z, Math_round v = JsInt z /\ 0 <= z <= 255.
Proof.
  unfold weighted_sum_in_range, Math_round.
  rewrite FloatAxioms.leb_spec, FloatAxioms.ltb_spec, andb_true_iff.
  pose proof (Prim2SF_valid v) as Hvalid.
  assert (H0 : Prim2SF 0%float = S754_zero false) by reflexivity.
  assert (H255 : Prim2SF 255.5%float = S754_finite false 8989607068696576 (-45))
    by reflexivity.
  rewrite H0, H255. clear H0 H255.
  destruct (Prim2SF v) as [s|s| |s m e]; intros [Hge Hlt].
  - exists 0. split; [reflexivity|lia].
  - destruct s; discriminate.
  - discriminate.
  - destruct s; [discriminate|].
    cbn [valid_binary] in Hvalid. unfold bounded in Hvalid.
    apply andb_true_iff in Hvalid as [Hcanon _].
    apply valid_mantissa_bound in Hcanon.
    exists (round_finite false m e). split; [reflexivity|].
    unfold SFltb, SFcompare in Hlt.
    destruct (e ?= -45) eqn:He; [| |discriminate].
    + apply Z.compare_eq_iff in He.
      rewrite Pos.compare_cont_spec in Hlt.
      assert (Hm : (m < 8989607068696576)%positive).
      { unfold Pos.lt. revert Hlt.
        generalize (m ?= 8989607068696576)%positive.
        intros c Hc. destruct c; [discriminate Hc|reflexivity|discriminate Hc]. }
      apply Pos2Z.pos_lt_pos in Hm. clear Hlt Hge.
      apply round_finite_byte; [lia|intros _; exact Hm|exact Hcanon].
    + change (e < -45) in He.
      apply round_finite_byte; [lia|lia|exact Hcanon].
Qed.

(** Exhaustive check over the 2^24 colours. *)
Lemma weighted_sum_check_ok :
  forallb (fun r => forallb (fun g => forallb (fun b =>
    weighted_sum_in_range (weighted_sum r g b)) byte_numbers) byte_numbers)
    byte_numbers = true.
Proof. vm_compute. reflexivity. Qed.

Lemma byte_number_listed (z : Z) : is_byte z -> In (number_of_Z z) byte_numbers.
Proof.
  intros Hz. unfold byte_numbers.
  replace z with (Z.of_nat (Z.to_nat z)) by (unfold is_byte in Hz; lia).
  apply (in_map (fun n => number_of_Z (Z.of_nat n))).
  apply in_seq. unfold is_byte in Hz. lia.
Qed.

Lemma luminance_byte (rgba : RGBA) :
  valid_pixel rgba -> exists z, luminance rgba = JsInt z /\ 0 <= z <= 255.
Proof.
  intros (Hr & Hg & Hb & _). unfold luminance.
  apply Math_round_byte.
  pose proof weighted_sum_check_ok as Hall.
  rewrite forallb_forall in Hall.
  specialize (Hall _ (byte_number_listed _ Hr)).
  rewrite forallb_forall in Hall.
  specialize (Hall _ (byte_number_listed _ Hg)).
  rewrite forallb_forall in Hall.
  exact (Hall _ (byte_number_listed _ Hb)).
Qed.

(** *** The loops fill the array row by row *)

Lemma store_row image y xs :
  forall done rest,
    (length xs <= length rest)%nat ->
    foldl (store_luminance image y) (done ++ rest, length done) xs
    = (done ++ ((fun x => toUint8Clamp (luminance (pixel_at image x y))) <$> xs)
            ++ drop (length xs) rest,
       (length done + length xs)%nat).
Proof.
  induction xs as [|x xs IH]; intros done rest Hlen.
  - cbn. rewrite drop_0, Nat.add_0_r. reflexivity.
  - destruct rest as [|r rest]; [cbn in Hlen; lia|].
    cbn [foldl]. unfold store_luminance at 2. cbn [fst snd].
    rewrite insert_app_r_alt by lia. rewrite Nat.sub_diag. cbn [list_insert insert].
    replace (done ++ toUint8Clamp (luminance (pixel_at image x y)) :: rest)
      with ((done ++ [toUint8Clamp (luminance (pixel_at image x y))]) ++ rest)
      by (rewrite <- app_assoc; reflexivity).
    replace (S (length done))
      with (length (done ++ [toUint8Clamp (luminance (pixel_at image x y))]))
      by (rewrite length_app; cbn; lia).
    rewrite IH by (cbn in Hlen; lia).
    rewrite length_app. cbn [length fmap list_fmap drop].
    rewrite <- !app_assoc. cbn [app]. f_equal. lia.
Qed.

Lemma length_luminance_row image y : length (luminance_row image y) = getWidth image.
Proof. unfold luminance_row. rewrite length_fmap, length_seq. reflexivity. Qed.

Lemma luminance_loops_rows image ys :
  forall done rest,
    length rest = (getWidth image * length ys)%nat ->
    foldl (fun st y => foldl (store_luminance image y) st (seq 0 (getWidth image)))
          (done ++ rest, length done) ys
    = (done ++ flat_map (luminance_row image) ys,
       (length done + getWidth image * length ys)%nat).
Proof.
  induction ys as [|y ys IH]; intros done rest Hlen.
  - cbn [length] in Hlen. rewrite Nat.mul_0_r in Hlen.
    apply nil_length_inv in Hlen. subst rest. cbn.
    rewrite Nat.mul_0_r, Nat.add_0_r. reflexivity.
  - cbn [foldl length flat_map] in *.
    rewrite store_row by (rewrite length_seq; lia).
    rewrite length_seq. fold (luminance_row image y).
    rewrite app_assoc.
    replace (length done + getWidth image)%nat
      with (length (done ++ luminance_row image y))
      by (rewrite length_app, length_luminance_row; reflexivity).
    rewrite IH by (rewrite length_drop; lia).
    rewrite length_app, length_luminance_row, <- app_assoc. f_equal. lia.
Qed.

Lemma luminanceArray_rows image :
  luminanceArray image = luminance_rows image (getHeight image).
Proof.
  unfold luminanceArray, luminance_loops, luminance_rows.
  pose proof (luminance_loops_rows image (seq 0 (getHeight image)) []
                (replicate (getWidth image * getHeight image) 0)) as H.
  cbn [app length] in H. rewrite H; [reflexivity|].
  rewrite length_replicate, length_seq. reflexivity.
Qed.

Lemma length_luminance_rows image h :
  length (luminance_rows image h) = (h * getWidth image)%nat.
Proof.
  unfold luminance_rows. induction h as [|h IH]; [reflexivity|].
  rewrite seq_S, flat_map_app, length_app, IH. cbn [flat_map Nat.add].
  rewrite app_nil_r, length_luminance_row. lia.
Qed.

Lemma lookup_luminance_rows image h x y :
  (y < h)%nat -> (x < getWidth image)%nat ->
  luminance_rows image h !! (y * getWidth image + x)%nat
  = Some (toUint8Clamp (luminance (pixel_at image x y))).
Proof.
  induction h as [|h IH]; intros Hy Hx; [lia|].
  unfold luminance_rows in *. rewrite seq_S, flat_map_app. cbn [flat_map Nat.add].
  rewrite app_nil_r.
  pose proof (length_luminance_rows image h) as Hlen. unfold luminance_rows in Hlen.
  destruct (decide (y < h)%nat) as [Hlt|Hge].
  - rewrite lookup_app_l by (rewrite Hlen; nia). apply IH; assumption.
  - assert (y = h) by lia. subst y.
    rewrite lookup_app_r by (rewrite Hlen; lia).
    rewrite Hlen. replace (h * getWidth image + x - h * getWidth image)%nat with x by lia.
    unfold luminance_row. rewrite list_lookup_fmap, lookup_seq_lt by exact Hx.
    reflexivity.
Qed.

Lemma valid_pixel_at image x y :
  valid_image image -> (x < getWidth image)%nat -> (y < getHeight image)%nat ->
  valid_pixel (pixel_at image x y).
Proof.
  intros [Hlen Hall] Hx Hy. unfold pixel_at.
  destruct (lookup_lt_is_Some_2 (bitmap_data image) (getWidth image * y + x))
    as [p Hp]; [rewrite Hlen; nia|].
  rewrite Hp. cbn. exact (Forall_lookup_1 _ _ _ _ Hall Hp).
Qed.

(** ** Properties of the decode ladder *)

Lemma fst_bind {A B : Type} (m : Eff A) (k : A -> Eff B) :
  fst (bind m k)
  = match fst m with
    | Returned a => fst (k a)
    | Thrown e => Thrown e
    end.
Proof. destruct m as [[a|e] t]; cbn; [destruct (k a)|]; reflexivity. Qed.

Lemma snd_bind {A B : Type} (m : Eff A) (k : A -> Eff B) :
  snd (bind m k)
  = snd m ++ match fst m with
             | Returned a => snd (k a)
             | Thrown _ => []
             end.
Proof.
  destruct m as [[a|e] t]; cbn; [destruct (k a); reflexivity|].
  rewrite app_nil_r. reflexivity.
Qed.

Lemma fst_try_catch {A : Type} (body : Eff A) (handler : JsError -> Eff A) :
  fst (try_catch body handler)
  = match fst body with
    | Returned a => Returned a
    | Thrown e => fst (handler e)
    end.
Proof. destruct body as [[a|e] t]; cbn; [|destruct (handler e)]; reflexivity. Qed.

Lemma snd_try_catch {A : Type} (body : Eff A) (handler : JsError -> Eff A) :
  snd (try_catch body handler)
  = snd body ++ match fst body with
                | Returned _ => []
                | Thrown e => snd (handler e)
                end.
Proof.
  destruct body as [[a|e] t]; cbn; [|destruct (handler e); reflexivity].
  rewrite app_nil_r. reflexivity.
Qed.

(** *** Traces *)

Lemma attempts_from_app current t1 t2 :
  attempts_from current (t1 ++ t2)
  = attempts_from current t1 ++ attempts_from (method_after current t1) t2.
Proof.
  revert current. induction t1 as [|ev t1 IH]; intros current; [reflexivity|].
  destruct ev as [[]| |]; cbn; rewrite ?IH; reflexivity.
Qed.

Lemma method_after_app current t1 t2 :
  method_after current (t1 ++ t2) = method_after (method_after current t1) t2.
Proof.
  revert current. induction t1 as [|ev t1 IH]; intros current; [reflexivity|].
  destruct ev as [[]| |]; cbn; rewrite ?IH; reflexivity.
Qed.

Lemma silent_attempts current t :
  forallb silent_event t = true -> attempts_from current t = [].
Proof.
  induction t as [|ev t IH]; [reflexivity|].
  cbn [forallb]. rewrite andb_true_iff. intros [Hev Ht].
  destruct ev as [[]| |]; cbn in *; try discriminate; auto.
Qed.

Lemma silent_method current t :
  forallb silent_event t = true -> method_after current t = current.
Proof.
  induction t as [|ev t IH]; [reflexivity|].
  cbn [forallb]. rewrite andb_true_iff. intros [Hev Ht].
  destruct ev as [[]| |]; cbn in *; try discriminate; auto.
Qed.

Lemma silent_bind {A B : Type} (m : Eff A) (k : A -> Eff B) :
  forallb silent_event (snd m) = true ->
  (forall a, forallb silent_event (snd (k a)) = true) ->
  forallb silent_event (snd (bind m k)) = true.
Proof.
  intros Hm Hk. rewrite snd_bind, forallb_app, Hm.
  destruct (fst m); [apply Hk|reflexivity].
Qed.

Lemma silent_try_catch {A : Type} (body : Eff A) (handler : JsError -> Eff A) :
  forallb silent_event (snd body) = true ->
  (forall e, forallb silent_event (snd (handler e)) = true) ->
  forallb silent_event (snd (try_catch body handler)) = true.
Proof.
  intros Hb Hh. rewrite snd_try_catch, forallb_app, Hb.
  destruct (fst body); [reflexivity|apply Hh].
Qed.

Ltac silent :=
  repeat first
    [ reflexivity
    | apply silent_bind; [|intros ?]
    | apply silent_try_catch; [|intros ?]
    | match goal with
      | |- context [if ?c then _ else _] => destruct c
      | |- context [match ?c with Some _ => _ | None => _ end] => destruct c
      end ].

Section Ladder.
Context `{JimpLibrary} `{ZXingLibrary}.

Lemma preprocess_silent method image :
  forallb silent_event (snd (preprocess method image)) = true.
Proof. unfold preprocess, applyThreshold. silent. Qed.

Lemma analyzeImageProperties_silent world image :
  forallb silent_event (snd (analyzeImageProperties world image)) = true.
Proof.
  unfold analyzeImageProperties. cbv zeta.
  destruct (foldl _ _ _) as [[totalBrightness darkPixels] lightPixels].
  silent.
Qed.

Lemma analyzeImageProperties_returns world image :
  fst (analyzeImageProperties world image) = Returned tt.
Proof.
  unfold analyzeImageProperties. cbv zeta.
  destruct (foldl _ _ _) as [[totalBrightness darkPixels] lightPixels].
  rewrite fst_bind. cbn [fst logger emit].
  repeat match goal with
         | |- context [if ?c then _ else _] => destruct c
         | |- context [match ?c with Some _ => _ | None => _ end] => destruct c
         end; reflexivity.
Qed.

Lemma write_versions_silent world names :
  forall k, forallb silent_event (snd (write_versions world k names)) = true.
Proof.
  induction names as [|name names IH]; intros k; cbn [write_versions]; [reflexivity|].
  destruct (writeAsync world name (Date_now world k)); [reflexivity|].
  silent. apply IH.
Qed.

Lemma saveDebugVersions_silent world image :
  forallb silent_event (snd (saveDebugVersions world image)) = true.
Proof.
  unfold saveDebugVersions, applyThreshold.
  apply silent_try_catch; [|intros ?; reflexivity].
  destruct (debug_images world); [|reflexivity].
  silent. apply write_versions_silent.
Qed.

Lemma saveDebugVersions_returns world image :
  fst (saveDebugVersions world image) = Returned tt.
Proof.
  unfold saveDebugVersions. rewrite fst_try_catch.
  destruct (fst _) as [[]|e]; reflexivity.
Qed.
End Ladder.

Section LadderRun.
Context `{JimpLibrary} `{ZXingLibrary}.

(** What a [decodeWithBinarizer] promise settles to. *)
Lemma decodeWithBinarizer_settles image binarizerType :
  fst (decodeWithBinarizer image binarizerType)
  = match reader_decode binarizerType (luminanceSource image) with
    | Returned decodedText => Returned (Some decodedText)
    | Thrown e => if expected_failure e then Returned None else Thrown e
    end.
Proof.
  unfold decodeWithBinarizer. rewrite fst_try_catch, fst_bind. cbn [fst].
  destruct (reader_decode _ _) as [decodedText|[]]; reflexivity.
Qed.

(** It calls the decoder once. *)
Lemma decodeWithBinarizer_trace image binarizerType :
  exists logs,
    snd (decodeWithBinarizer image binarizerType) = EvDecode binarizerType :: logs /\
    forallb silent_event logs = true.
Proof.
  unfold decodeWithBinarizer. rewrite snd_try_catch, snd_bind, fst_bind.
  cbn [fst snd app].
  destruct (reader_decode _ _) as [decodedText|[]]; cbn; eauto.
Qed.

Lemma decodeWithBinarizer_attempts current image binarizerType :
  attempts_from current (snd (decodeWithBinarizer image binarizerType))
  = [(current, binarizerType)] /\
  method_after current (snd (decodeWithBinarizer image binarizerType)) = current.
Proof.
  destruct (decodeWithBinarizer_trace image binarizerType) as (logs & -> & Hlogs).
  cbn. rewrite (silent_attempts _ _ Hlogs), (silent_method _ _ Hlogs). auto.
Qed.

(** The entry of [Promise.allSettled] for one binarizer contributes the
    text of the attempt. *)
Lemma first_truthy_attempt image method processedImage binarizerType rest :
  fst (preprocess method image) = Returned processedImage ->
  first_truthy (settle (fst (decodeWithBinarizer processedImage binarizerType)) :: rest)
  = match attempt_text image method binarizerType with
    | Some value => Some value
    | None => first_truthy rest
    end.
Proof.
  intros Hp. unfold attempt_text, attempt_outcome.
  rewrite Hp, decodeWithBinarizer_settles.
  destruct (reader_decode _ _) as [decodedText|e]; cbn.
  - destruct (truthy decodedText); reflexivity.
  - destruct (expected_failure e); reflexivity.
Qed.

(** A method settles, never rejects, with the first truthy text of its two
    binarizers. *)
Lemma tryDecodeWithProcessing_settles image method :
  settled (tryDecodeWithProcessing image method)
  = Returned (first_text image [(method, hybrid); (method, global)]).
Proof.
  unfold tryDecodeWithProcessing.
  destruct (logger (DbgTrying method);;; preprocess method image)
    as [[processedImage|error] t] eqn:E;
    apply (f_equal fst) in E; rewrite fst_bind in E; cbn [fst logger emit] in E.
  - cbn [settled allSettled fmap list_fmap].
    rewrite (first_truthy_attempt image method processedImage hybrid _ E).
    rewrite (first_truthy_attempt image method processedImage global _ E).
    cbn [first_text first_truthy].
    destruct (attempt_text image method hybrid); [reflexivity|].
    destruct (attempt_text image method global); reflexivity.
  - cbn [settled first_text]. unfold attempt_text, attempt_outcome.
    rewrite E. reflexivity.
Qed.

Lemma tryDecodeWithProcessing_attempts current image method :
  attempts_from current (during_call (tryDecodeWithProcessing image method))
  = pairs_tried image method /\
  method_after current (during_call (tryDecodeWithProcessing image method)) = method.
Proof.
  unfold tryDecodeWithProcessing, pairs_tried.
  pose proof (preprocess_silent method image) as Hsilent.
  destruct (logger (DbgTrying method);;; preprocess method image)
    as [[processedImage|error] t] eqn:E;
    pose proof (f_equal fst E) as Ef; pose proof (f_equal snd E) as Es;
    rewrite fst_bind in Ef; rewrite snd_bind in Es;
    cbn [fst snd logger emit app] in Ef, Es; rewrite Ef in *; subst t;
    cbn [during_call].
  - rewrite !attempts_from_app, !method_after_app. cbn [attempts_from method_after].
    rewrite (silent_attempts _ _ Hsilent), (silent_method _ _ Hsilent).
    destruct (decodeWithBinarizer_attempts method processedImage hybrid) as [-> ->].
    destruct (decodeWithBinarizer_attempts method processedImage global) as [-> ->].
    auto.
  - rewrite !attempts_from_app, !method_after_app. cbn [attempts_from method_after].
    rewrite (silent_attempts _ _ Hsilent), (silent_method _ _ Hsilent). auto.
Qed.

Lemma tryDecodeWithProcessing_resume_silent image method :
  forallb silent_event (after_await (tryDecodeWithProcessing image method)) = true.
Proof.
  unfold tryDecodeWithProcessing.
  destruct (logger (DbgTrying method);;; preprocess method image) as [[p|e] t];
    cbn [after_await]; [|reflexivity].
  destruct (first_truthy _); reflexivity.
Qed.

(** The loop over the settled methods reads off the first text in ladder
    order. *)
Lemma first_truthy_methods image ms :
  first_truthy (allSettled (settled <$> (tryDecodeWithProcessing image <$> ms)))
  = first_text image (ladder_of ms).
Proof.
  induction ms as [|method ms IH]; [reflexivity|].
  cbn [fmap list_fmap allSettled] in *. rewrite tryDecodeWithProcessing_settles.
  cbn [settle first_truthy ladder_of flat_map app first_text].
  fold (ladder_of ms).
  destruct (attempt_text image method hybrid) as [v|] eqn:Eh.
  - assert (Ht : truthy v = true).
    { unfold attempt_text in Eh. destruct (attempt_outcome _ _ _) as [[d|]|];
        try discriminate. destruct (truthy d) eqn:Et; congruence. }
    rewrite Ht. reflexivity.
  - destruct (attempt_text image method global) as [v|] eqn:Eg.
    + assert (Ht : truthy v = true).
      { unfold attempt_text in Eg. destruct (attempt_outcome _ _ _) as [[d|]|];
          try discriminate. destruct (truthy d) eqn:Et; congruence. }
      rewrite Ht. reflexivity.
    + exact IH.
Qed.

Lemma during_calls_attempts image ms :
  forall current,
    attempts_from current
      (concat (during_call <$> (tryDecodeWithProcessing image <$> ms)))
    = flat_map (pairs_tried image) ms.
Proof.
  induction ms as [|method ms IH]; intros current; [reflexivity|].
  cbn [fmap list_fmap concat flat_map].
  rewrite attempts_from_app.
  destruct (tryDecodeWithProcessing_attempts current image method) as [-> ->].
  f_equal. apply IH.
Qed.

Lemma after_awaits_silent image ms :
  forallb silent_event
    (concat (after_await <$> (tryDecodeWithProcessing image <$> ms))) = true.
Proof.
  induction ms as [|method ms IH]; [reflexivity|].
  cbn [fmap list_fmap concat]. rewrite forallb_app, IH.
  rewrite tryDecodeWithProcessing_resume_silent. reflexivity.
Qed.

(** A run on a buffer that jimp reads as [image]: the promise is
    fulfilled with the text of the earliest pair that has one, and each
    method whose preprocessing returns has tried both binarizers. *)
Lemma decodeQrFromBuffer_run world buffer image :
  Jimp_read buffer = Returned image ->
  fst (decodeQrFromBuffer world buffer) = Returned (first_text image ladder) /\
  attempts (snd (decodeQrFromBuffer world buffer))
  = flat_map (pairs_tried image) methods.
Proof.
  intros Hread. unfold decodeQrFromBuffer, read. rewrite Hread.
  pose proof (first_truthy_methods image methods) as Hfirst.
  fold ladder in Hfirst.
  pose proof (during_calls_attempts image methods) as Hduring.
  pose proof (after_awaits_silent image methods) as Hafter.
  pose proof (analyzeImageProperties_returns world image) as Ha.
  pose proof (analyzeImageProperties_silent world image) as Has.
  pose proof (saveDebugVersions_returns world image) as Hs.
  pose proof (saveDebugVersions_silent world image) as Hss.
  split.
  - repeat (progress (rewrite ?fst_try_catch, ?fst_bind, ?Ha;
                      cbn [fst snd logger emit ret throw]; cbv zeta)).
    rewrite Hfirst.
    destruct (first_text image ladder); [reflexivity|].
    repeat (progress (rewrite ?fst_bind, ?Hs; cbn [fst snd logger emit ret throw])).
    reflexivity.
  - unfold attempts.
    repeat (progress (rewrite ?snd_try_catch, ?fst_try_catch, ?snd_bind, ?fst_bind, ?Ha;
                      cbn [fst snd logger emit ret throw]; cbv zeta)).
    rewrite ?Hfirst.
    repeat rewrite ?attempts_from_app, ?method_after_app.
    cbn [attempts_from method_after app].
    rewrite (silent_attempts _ _ Has), (silent_method _ _ Has).
    rewrite Hduring, (silent_attempts _ _ Hafter).
    destruct (first_text image ladder).
    + cbn. rewrite !app_nil_r. reflexivity.
    + repeat (progress (rewrite ?snd_bind, ?fst_bind, ?Hs;
                        cbn [fst snd logger emit ret throw])).
      repeat rewrite ?attempts_from_app, ?method_after_app.
      cbn [attempts_from method_after app].
      rewrite (silent_attempts _ _ Hss). cbn. rewrite !app_nil_r. reflexivity.
Qed.

(** A buffer that jimp cannot read: the error is rethrown and no attempt
    is made. *)
Lemma decodeQrFromBuffer_unreadable world buffer e :
  Jimp_read buffer = Thrown e ->
  decodeQrFromBuffer world buffer
  = (Thrown e, [EvLog DbgStarting; EvJimp CallRead; EvLog (ErrUnexpected e)]).
Proof.
  intros Hread. unfold decodeQrFromBuffer, read. rewrite Hread. reflexivity.
Qed.
End LadderRun.

(** *** More on the scan: the range of the result, and the empty histogram *)

Lemma jsdiv_None (a b : Z) : jsdiv a b = None <-> b = 0.
Proof.
  unfold jsdiv. destruct (Z.eqb_spec b 0); split; intros; congruence.
Qed.

Lemma otsu_iteration_threshold histogram total sum i v step :
  otsu_iteration histogram total sum i v = Some step ->
  let v' := match step with GoOn s => s | Break s => s end in
  threshold v' = threshold v \/ threshold v' = Z.of_nat i.
Proof.
  destruct (Z.eq_dec (wB v + bin histogram i) 0) as [HwB|HwB].
  { rewrite otsu_iteration_skip by exact HwB. intros [= <-]. left. reflexivity. }
  destruct (Z.eq_dec (total - (wB v + bin histogram i)) 0) as [HwF|HwF].
  { rewrite otsu_iteration_break by assumption. intros [= <-]. left. reflexivity. }
  rewrite otsu_iteration_candidate by assumption. cbv zeta.
  destruct (Qgtb _ _); intros [= <-]; [right|left]; reflexivity.
Qed.

Lemma otsu_loop_threshold histogram total sum n :
  forall i v v',
    (i + n <= 256)%nat ->
    0 <= threshold v <= 255 ->
    otsu_loop histogram total sum n i v = Some v' ->
    0 <= threshold v' <= 255.
Proof.
  induction n as [|n IH]; intros i v v' Hin Hv; cbn [otsu_loop].
  - intros [= <-]. exact Hv.
  - destruct (otsu_iteration histogram total sum i v) as [step|] eqn:E; [|discriminate].
    pose proof (otsu_iteration_threshold _ _ _ _ _ _ E) as Hstep.
    destruct step as [s|s]; cbn in Hstep.
    + apply IH; [lia|]. destruct Hstep as [-> | ->]; lia.
    + intros [= <-]. destruct Hstep as [-> | ->]; lia.
Qed.

Lemma calculateOtsuThreshold_range histogram :
  exists t, calculateOtsuThreshold histogram = Some t /\ 0 <= t <= 255.
Proof.
  destruct (calculateOtsuThreshold_defined histogram) as [t Ht].
  exists t. split; [exact Ht|].
  revert Ht. unfold calculateOtsuThreshold.
  destruct (length histogram <? 256)%nat; [intros [= <-]; lia|].
  cbv zeta.
  destruct (otsu_loop _ _ _ _ _ _) as [v'|] eqn:E; [|discriminate].
  intros [= <-].
  eapply (otsu_loop_threshold _ _ _ 256 0 otsu_init); [lia|cbn; lia|exact E].
Qed.

(** *** More on the luminance array: every entry is a byte *)

Lemma toUint8Clamp_byte v : 0 <= toUint8Clamp v <= 255.
Proof. destruct v as [z|[]|]; cbn; lia. Qed.

Lemma luminance_rows_bytes image h :
  Forall (fun v => 0 <= v <= 255) (luminance_rows image h).
Proof.
  unfold luminance_rows. apply Forall_forall. intros v Hv.
  apply list_elem_of_In, in_flat_map in Hv as (y & _ & Hv).
  unfold luminance_row in Hv. apply list_elem_of_In, list_elem_of_fmap in Hv as (x & -> & _).
  apply toUint8Clamp_byte.
Qed.

(** *** More on the ladder *)

Section LadderFacts.
Context `{JimpLibrary} `{ZXingLibrary}.


Lemma first_text_none image pairs :
  (forall method b, In (method, b) pairs ->
     exists e, attempt_outcome image method b = Some (Thrown e)) ->
  first_text image pairs = None.
Proof.
  induction pairs as [|[method b] pairs IH]; intros Hall; [reflexivity|].
  cbn [first_text]. unfold attempt_text.
  destruct (Hall method b ltac:(left; reflexivity)) as [e ->].
  apply IH. intros m' b' Hin. apply Hall. right. exact Hin.
Qed.

Lemma pairs_tried_ladder image ms :
  (forall method, In method ms ->
     exists processedImage, fst (preprocess method image) = Returned processedImage) ->
  flat_map (pairs_tried image) ms = ladder_of ms.
Proof.
  induction ms as [|method ms IH]; intros Hall; [reflexivity|].
  cbn [flat_map ladder_of]. fold (ladder_of ms).
  rewrite IH by (intros m' Hin; apply Hall; right; exact Hin).
  unfold pairs_tried at 1.
  destruct (Hall method ltac:(left; reflexivity)) as [p ->]. reflexivity.
Qed.

Lemma ladder_method method b ms : In (method, b) (ladder_of ms) -> In method ms.
Proof.
  induction ms as [|m ms IH]; [intros []|].
  cbn [ladder_of flat_map app]. fold (ladder_of ms).
  intros [[= <- _]|[[= <- _]|Hin]]; [left; reflexivity..|right; auto].
Qed.

(** What the controller answers, from how the service call ends. *)
Lemma decodeQr_response world file :
  fst (decodeQr world (Some file))
  = Returned
      (match fst (decodeQrFromBuffer world (buffer file)) with
       | Returned (Some value) =>
           if truthy value
           then MkResponse true (Some value) None (metadata_of file)
           else MkResponse false None (Some "No QR code found in the image"%string)
                           (metadata_of file)
       | Returned None =>
           MkResponse false None (Some "No QR code found in the image"%string)
                      (metadata_of file)
       | Thrown _ =>
           MkResponse false None (Some "Failed to process the image"%string)
                      (metadata_of file)
       end).
Proof.
  unfold decodeQr. rewrite fst_bind. cbn [fst logger emit].
  rewrite fst_try_catch, fst_bind.
  destruct (fst (decodeQrFromBuffer world (buffer file))) as [[value|]|e];
    [destruct (truthy value)| |]; reflexivity.
Qed.
End LadderFacts.

(** * The specification, statement by statement *)

(** ** C1 *)




(** ** C2 *)



Lemma stubJimp_preprocess_returns (image : Jimp) (method : string) :
  In method methods ->
  exists processedImage, fst (@preprocess stubJimp method image) = Returned processedImage.
Proof.
  intros Hin. cbn [In methods] in Hin.
  repeat (destruct Hin as [<-|Hin]); [..|destruct Hin];
    unfold preprocess; cbn [String.eqb Ascii.eqb Bool.eqb];
    try destruct (500 <? _)%nat;
    cbn [fst bind ret greyscale contrast normalize resize convolute logger emit
         stubJimp Jimp_greyscale Jimp_contrast Jimp_normalize Jimp_resize
         Jimp_convolute];
    eauto.
Qed.


(** ** C3 *)

(** C3 at an image whose symbol encodes the empty text: every attempt
    succeeds, with the empty text, and [decodeQrFromBuffer] returns [null]
    instead of the text of the earliest attempt; the controller answers that
    no code was found.  And when only the hybrid attempts read the empty
    text, the text returned is that of (original, global), the second pair,
    although (original, hybrid), the first, has succeeded. *)
Theorem empty_text_is_passed_over :
  (forall method binarizerType,
     In (method, binarizerType) ladder ->
     @attempt_outcome stubJimp (constantZXing (Returned EmptyString))
        (MkJimp 1 1 [gray_pixel 200]) method binarizerType
     = Some (Returned EmptyString)) /\
  fst (@decodeQrFromBuffer stubJimp (constantZXing (Returned EmptyString))
         quietWorld [200]) = Returned None /\
  fst (@decodeQr stubJimp (constantZXing (Returned EmptyString)) quietWorld
         (Some sample_file))
  = Returned (MkResponse false None (Some "No QR code found in the image"%string)
                         (metadata_of sample_file)) /\
  @attempt_outcome stubJimp emptyFirstZXing (MkJimp 1 1 [gray_pixel 200])
     "original" hybrid = Some (Returned EmptyString) /\
  fst (@decodeQrFromBuffer stubJimp emptyFirstZXing quietWorld [200])
  = Returned (Some "https://example.org"%string).
Proof.
  split; [|vm_compute; repeat split; reflexivity].
  intros method binarizerType Hin. cbn in Hin.
  repeat (destruct Hin as [[= <- <-]|Hin]; [vm_compute; reflexivity|]).
  destruct Hin.
Qed.

(** ** C4 *)

(** C4: the outcome of [decodeQrFromBuffer], and the response of the
    controller, are the same in any two worlds: whatever [Math.random()]
    and [Date.now()] return, whether the debug images are switched on and
    whether they can be written.  The collaborators are functions of their
    arguments, and [Promise.allSettled] reports in the order of its argument
    array. *)
Theorem decode_result_independent_of_world
    `{JimpLibrary} `{ZXingLibrary}
    (world1 world2 : World) (bytes : list Z) (file : option File) :
  fst (decodeQrFromBuffer world1 bytes) = fst (decodeQrFromBuffer world2 bytes) /\
  attempts (snd (decodeQrFromBuffer world1 bytes))
  = attempts (snd (decodeQrFromBuffer world2 bytes)) /\
  fst (decodeQr world1 file) = fst (decodeQr world2 file).
Proof.
  assert (Hsame : forall b,
    fst (decodeQrFromBuffer world1 b) = fst (decodeQrFromBuffer world2 b) /\
    attempts (snd (decodeQrFromBuffer world1 b))
    = attempts (snd (decodeQrFromBuffer world2 b))).
  { intros b. destruct (Jimp_read b) as [image|e] eqn:Hread.
    - destruct (decodeQrFromBuffer_run world1 b image Hread) as [-> ->].
      destruct (decodeQrFromBuffer_run world2 b image Hread) as [-> ->].
      split; reflexivity.
    - rewrite !(decodeQrFromBuffer_unreadable _ b e Hread). split; reflexivity. }
  split; [apply Hsame|]. split; [apply Hsame|].
  destruct file as [file|]; [|reflexivity].
  rewrite !decodeQr_response.
  destruct (Hsame (buffer file)) as [-> _]. reflexivity.
Qed.

(** The two worlds of the development are told apart by the log, not by the
    result. *)
Lemma worlds_differ_in_the_log :
  snd (@decodeQrFromBuffer stubJimp (constantZXing (Thrown NotFoundException))
         quietWorld [100])
  <> snd (@decodeQrFromBuffer stubJimp (constantZXing (Thrown NotFoundException))
            debugWorld [100]).
Proof. vm_compute. intros [=]. Qed.

(** ** C8 *)

(** C8, as stated, fails: an image 501 pixels wide and one pixel high has
    its larger side above 500, and the resize method passes it through
    without a single call to jimp. *)
Lemma resize_skipped_for_wide_image :
  (500 < Nat.max (getWidth wide_image) (getHeight wide_image))%nat /\
  @preprocess stubJimp "resize" wide_image = (Returned wide_image, []).
Proof. split; [vm_compute; lia|reflexivity]. Qed.

(** C8, amended: the resize method resizes to 500 x 500, then applies
    greyscale and normalize, exactly when the smaller of width and height
    exceeds 500; otherwise, and so for every image whose larger side is at
    most 500, it returns the image unchanged and calls nothing. *)
Theorem resize_condition `{JimpLibrary} (image : Jimp) :
  preprocess "resize" image
  = (if (500 <? Nat.min (getWidth image) (getHeight image))%nat
     then let* r := resize 500 500 image in
          let* g := greyscale r in
          normalize g
     else (Returned image, [])) /\
  ((Nat.max (getWidth image) (getHeight image) <= 500)%nat ->
   preprocess "resize" image = (Returned image, [])).
Proof.
  assert (Heq : preprocess "resize" image
    = (if (500 <? Nat.min (getWidth image) (getHeight image))%nat
       then let* r := resize 500 500 image in
            let* g := greyscale r in
            normalize g
       else (Returned image, []))) by reflexivity.
  split; [exact Heq|].
  intros Hmax. rewrite Heq.
  destruct (Nat.ltb_spec 500 (Nat.min (getWidth image) (getHeight image)));
    [lia|reflexivity].
Qed.

(** ** C9 *)

(** C9: when every one of the fourteen attempts fails with one of the three
    expected exceptions, the promise of [decodeQrFromBuffer] is fulfilled
    with [null], after all fourteen pairs were evaluated in order, and the
    controller answers [success: false, text: null] with the message of a
    code that was not found, not the one of a processing failure. *)
Theorem exhaustion_reports_not_found
    `{JimpLibrary} `{ZXingLibrary}
    (world : World) (file : File) (image : Jimp) :
  Jimp_read (buffer file) = Returned image ->
  (forall method binarizerType,
     In (method, binarizerType) ladder ->
     exists e, attempt_outcome image method binarizerType = Some (Thrown e) /\
               expected_failure e = true) ->
  fst (decodeQrFromBuffer world (buffer file)) = Returned None /\
  attempts (snd (decodeQrFromBuffer world (buffer file))) = ladder /\
  length (attempts (snd (decodeQrFromBuffer world (buffer file)))) = 14%nat /\
  fst (decodeQr world (Some file))
  = Returned (MkResponse false None (Some "No QR code found in the image"%string)
                         (metadata_of file)).
Proof.
  intros Hread Hall.
  destruct (decodeQrFromBuffer_run world (buffer file) image Hread) as [Hfst Hsnd].
  assert (Hnone : first_text image ladder = None).
  { apply first_text_none. intros method b Hin.
    destruct (Hall method b Hin) as (e & He & _). eauto. }
  assert (Hattempts : attempts (snd (decodeQrFromBuffer world (buffer file))) = ladder).
  { rewrite Hsnd. apply pairs_tried_ladder. intros method Hin.
    destruct (Hall method hybrid) as (e & He & _).
    { unfold ladder. clear -Hin. induction methods as [|m ms IH]; [destruct Hin|].
      cbn [ladder_of flat_map app]. destruct Hin as [->|Hin];
        [left; reflexivity|right; right; apply IH; exact Hin]. }
    unfold attempt_outcome in He.
    destruct (fst (preprocess method image)) as [p|]; [eauto|discriminate]. }
  rewrite Hnone in Hfst.
  split; [exact Hfst|]. split; [exact Hattempts|].
  split; [rewrite Hattempts; reflexivity|].
  rewrite decodeQr_response, Hfst. reflexivity.
Qed.

Lemma stub_not_found_everywhere (method : string) (binarizerType : BinarizerType) :
  In (method, binarizerType) ladder ->
  exists e,
    @attempt_outcome stubJimp (constantZXing (Thrown NotFoundException))
       (MkJimp 1 1 [gray_pixel 200]) method binarizerType = Some (Thrown e) /\
    expected_failure e = true.
Proof.
  intros Hin. exists NotFoundException. split; [|reflexivity].
  apply ladder_method in Hin.
  destruct (stubJimp_preprocess_returns (MkJimp 1 1 [gray_pixel 200]) method Hin)
    as [p Hp].
  unfold attempt_outcome. rewrite Hp. reflexivity.
Qed.

Lemma exhaustion_reports_not_found_witness :
  @Jimp_read stubJimp (buffer sample_file) = Returned (MkJimp 1 1 [gray_pixel 200]) /\
  fst (@decodeQr stubJimp (constantZXing (Thrown NotFoundException)) quietWorld
         (Some sample_file))
  = Returned (MkResponse false None (Some "No QR code found in the image"%string)
                         (metadata_of sample_file)).
Proof.
  split; [reflexivity|].
  exact (proj2 (proj2 (proj2
    (@exhaustion_reports_not_found stubJimp (constantZXing (Thrown NotFoundException))
       quietWorld sample_file (MkJimp 1 1 [gray_pixel 200]) eq_refl
       stub_not_found_everywhere)))).
Defined.

(** ** C5 *)



(** ** C6 *)

(** C6, as stated, fails: with two isolated peaks at 50 and 200 the scan
    returns 50, which is not strictly between them. *)
Lemma otsu_two_peaks_not_strictly_between :
  exists t, calculateOtsuThreshold (two_peaks 50 200 10 10) = Some t /\
            ~ (50 < t < 200).
Proof. exists 50. split; [vm_compute; reflexivity|lia]. Qed.

(** C6, amended: for a histogram whose only nonzero bins are two peaks at
    [a < b], the scan returns [a] itself, the first of the equally good
    candidates [a], ..., [b - 1]; so [a <= t < b].  For a uniform histogram
    it returns 127, whatever the common count. *)
Theorem otsu_two_peaks_and_uniform (a b : nat) (na nb c : Z) :
  (a < b)%nat -> (b <= 255)%nat -> 0 < na -> 0 < nb -> 0 < c ->
  calculateOtsuThreshold (two_peaks a b na nb) = Some (Z.of_nat a) /\
  Z.of_nat a <= Z.of_nat a < Z.of_nat b /\
  calculateOtsuThreshold (uniform c) = Some 127.
Proof.
  intros Hab Hb Hna Hnb Hc.
  split; [exact (two_peaks_threshold a b na nb Hab Hb Hna Hnb)|].
  split; [lia|exact (uniform_threshold c Hc)].
Qed.

Lemma otsu_two_peaks_and_uniform_witness :
  (50 < 200)%nat /\ (200 <= 255)%nat /\ 0 < 10 /\ 0 < 3 /\
  calculateOtsuThreshold (two_peaks 50 200 10 10) = Some 50 /\
  calculateOtsuThreshold (uniform 3) = Some 127.
Proof.
  assert (H1 : (50 < 200)%nat) by lia.
  assert (H2 : (200 <= 255)%nat) by lia.
  assert (H3 : 0 < 10) by lia.
  assert (H4 : 0 < 3) by lia.
  destruct (otsu_two_peaks_and_uniform 50 200 10 10 3 H1 H2 H3 H3 H4)
    as (Hpeaks & _ & Huniform).
  repeat split; assumption.
Defined.

(** ** C7 *)

(** C7: for an image of [width * height] pixels of four bytes each, the
    luminance array has one entry per pixel; the entry at index
    [y * width + x] is [Math.round(0.299 * r + 0.587 * g + 0.114 * b)] for
    the channels of pixel [(x, y)], computed on binary64 numbers; that value
    is an integer of [[0, 255]], which the clamped array stores unchanged;
    and every entry of the array is in [[0, 255]]. *)
Theorem luminance_extraction (image : Jimp) (x y : nat) :
  valid_image image ->
  (x < getWidth image)%nat -> (y < getHeight image)%nat ->
  length (luminanceArray image) = (getWidth image * getHeight image)%nat /\
  Forall (fun v => 0 <= v <= 255) (luminanceArray image) /\
  exists z,
    Math_round
      (0.299 * number_of_Z (red (pixel_at image x y))
       + 0.587 * number_of_Z (green (pixel_at image x y))
       + 0.114 * number_of_Z (blue (pixel_at image x y)))%float = JsInt z /\
    0 <= z <= 255 /\
    luminanceArray image !! (y * getWidth image + x)%nat = Some z.
Proof.
  intros Hvalid Hx Hy. rewrite luminanceArray_rows.
  split; [rewrite length_luminance_rows; lia|].
  split; [apply luminance_rows_bytes|].
  destruct (luminance_byte _ (valid_pixel_at image x y Hvalid Hx Hy)) as (z & Hz & Hbyte).
  exists z. split; [exact Hz|]. split; [exact Hbyte|].
  rewrite (lookup_luminance_rows image _ x y Hy Hx), Hz. cbn [toUint8Clamp].
  f_equal. lia.
Qed.

Lemma luminance_extraction_witness :
  valid_image sample_image /\ (0 < getWidth sample_image)%nat /\
  (0 < getHeight sample_image)%nat /\
  exists z, 0 <= z <= 255 /\
            luminanceArray sample_image !! (0 * getWidth sample_image + 0)%nat = Some z.
Proof.
  assert (Hvalid : valid_image sample_image).
  { unfold valid_image. split; [reflexivity|].
    unfold sample_image, valid_pixel, is_byte. cbn [bitmap_data].
    repeat constructor; cbn; lia. }
  assert (Hx : (0 < getWidth sample_image)%nat) by (cbn; lia).
  assert (Hy : (0 < getHeight sample_image)%nat) by (cbn; lia).
  destruct (luminance_extraction sample_image 0 0 Hvalid Hx Hy)
    as (_ & _ & z & _ & Hbyte & Hz).
  split; [exact Hvalid|]. split; [exact Hx|]. split; [exact Hy|].
  exists z. split; [exact Hbyte|exact Hz].
Defined.

(** The double arithmetic matters: here the exact sum is 22.5, which would
    round up, and the computed one is just below. *)
Lemma luminance_rounds_the_computed_sum :
  luminance (MkRGBA 0 36 12 255) = JsInt 22 /\
  (299 * 0 + 587 * 36 + 114 * 12) * 2 = 45 * 1000.
Proof. split; [vm_compute; reflexivity|reflexivity]. Qed.

(** ** C10 *)

(** C10: a division of the scan is undefined exactly when its divisor is 0,
    and no iteration reaches one: the scan is defined on every array, with a
    result in [[0, 255]].  On the all-zero histogram every iteration takes
    the [continue] and leaves the variables as they are, and the result
    is 0. *)
Theorem calculateOtsuThreshold_total :
  (forall a b, jsdiv a b = None <-> b = 0) /\
  (forall histogram total sum i v,
     exists step, otsu_iteration histogram total sum i v = Some step) /\
  (forall histogram,
     exists t, calculateOtsuThreshold histogram = Some t /\ 0 <= t <= 255) /\
  (forall i, (i < 256)%nat ->
     otsu_iteration (replicate 256 0) 0 0 i otsu_init = Some (GoOn otsu_init)) /\
  calculateOtsuThreshold (replicate 256 0) = Some 0.
Proof.
  split; [exact jsdiv_None|].
  split; [intros; apply otsu_iteration_defined|].
  split; [exact calculateOtsuThreshold_range|].
  split; [|vm_compute; reflexivity].
  intros i Hi. rewrite otsu_iteration_skip.
  - unfold bin. rewrite lookup_replicate_2 by exact Hi. reflexivity.
  - unfold bin. rewrite lookup_replicate_2 by exact Hi. reflexivity.
Qed.

(** * Further properties of the code *)

(** ** Properties of the bearer-token guard *)

Lemma js_split_nonempty (separator : ascii) (s : string) :
  js_split separator s <> [].
Proof.
  destruct s as [|c rest]; cbn [js_split]; [discriminate|].
  destruct (Ascii.eqb c separator); [discriminate|].
  destruct (js_split separator rest); discriminate.
Qed.

(** A piece without a space, a space, and the rest: the piece is the first
    element of the split. *)
Lemma js_split_spaceless (piece rest : string) :
  spaceless piece = true ->
  js_split " " (piece +:+ String " " rest) = piece :: js_split " " rest.
Proof.
  induction piece as [|c piece IH]; intros Hpiece.
  - reflexivity.
  - cbn [spaceless] in Hpiece. apply andb_true_iff in Hpiece as [Hc Hpiece].
    apply negb_true_iff in Hc.
    change (String c piece +:+ String " " rest)
      with (String c (piece +:+ String " " rest)).
    cbn [js_split]. rewrite Hc, (IH Hpiece). reflexivity.
Qed.

Lemma js_split_spaceless_end (piece : string) :
  spaceless piece = true -> js_split " " piece = [piece].
Proof.
  induction piece as [|c piece IH]; intros Hpiece; [reflexivity|].
  cbn [spaceless] in Hpiece. apply andb_true_iff in Hpiece as [Hc Hpiece].
  apply negb_true_iff in Hc. cbn [js_split]. rewrite Hc, (IH Hpiece). reflexivity.
Qed.

(** Conversely, the first piece has no space, and the string is that piece
    alone or the piece, a space and a string that splits into the other
    pieces. *)
Lemma js_split_head (s piece : string) (pieces : list string) :
  js_split " " s = piece :: pieces ->
  spaceless piece = true /\
  match pieces with
  | [] => s = piece
  | _ :: _ => exists rest, s = piece +:+ String " " rest /\ js_split " " rest = pieces
  end.
Proof.
  revert piece pieces. induction s as [|c s IH]; intros piece pieces Hsplit.
  - cbn in Hsplit. injection Hsplit as <- <-. split; reflexivity.
  - cbn [js_split] in Hsplit. destruct (Ascii.eqb c " ") eqn:Hc.
    + apply Ascii.eqb_eq in Hc as ->. injection Hsplit as <- <-.
      split; [reflexivity|].
      pose proof (js_split_nonempty " " s) as Hne.
      destruct (js_split " " s) as [|p ps] eqn:Hs; [congruence|].
      exists s. split; [reflexivity|exact Hs].
    + destruct (js_split " " s) as [|p ps] eqn:Hs.
      * exfalso. exact (js_split_nonempty " " s Hs).
      * injection Hsplit as <- <-.
        destruct (IH p ps eq_refl) as [Hp Hrest].
        split; [cbn [spaceless]; rewrite Hc, Hp; reflexivity|].
        destruct ps as [|q qs].
        -- rewrite Hrest. reflexivity.
        -- destruct Hrest as (rest & -> & Hq). exists rest. split; [reflexivity|exact Hq].
Qed.

(** Joining the pieces with the separator gives the string back. *)
Lemma js_split_join (s : string) :
  foldr (fun piece joined =>
           match joined with
           | None => Some piece
           | Some tail => Some (piece +:+ String " " tail)
           end) None (js_split " " s) = Some s.
Proof.
  induction s as [|c s IH]; [reflexivity|].
  cbn [js_split]. destruct (Ascii.eqb c " ") eqn:Hc.
  - apply Ascii.eqb_eq in Hc as ->. cbn [foldr]. rewrite IH. reflexivity.
  - pose proof (js_split_nonempty " " s) as Hne.
    destruct (js_split " " s) as [|p ps]; [congruence|].
    cbn [foldr] in *. destruct (foldr _ None ps) as [tail|].
    + injection IH as <-. reflexivity.
    + injection IH as <-. reflexivity.
Qed.

Lemma truthy_nonempty (s : string) : truthy s = true <-> s <> EmptyString.
Proof.
  unfold truthy. rewrite negb_true_iff. destruct s; cbn; split; congruence.
Qed.

(** What [extractTokenFromHeader] returns, by the shape of the header. *)
Lemma extractTokenFromHeader_Some (authHeader token : string) :
  extractTokenFromHeader authHeader = Some token <->
  spaceless token = true /\
  (authHeader = "Bearer " +:+ token \/
   exists rest, authHeader = "Bearer " +:+ token +:+ String " " rest).
Proof.
  unfold extractTokenFromHeader. cbv zeta. split.
  - destruct (js_split " " authHeader) as [|type pieces] eqn:Hsplit;
      [discriminate|].
    cbn [lookup list_lookup]. destruct (String.eqb_spec type "Bearer") as [->|];
      [|discriminate].
    destruct pieces as [|t pieces]; [discriminate|]. cbn. intros [= ->].
    destruct (js_split_head _ _ _ Hsplit) as [_ (rest & -> & Hrest)].
    destruct (js_split_head _ _ _ Hrest) as [Htoken Hshape].
    split; [exact Htoken|].
    destruct pieces as [|q qs].
    + left. rewrite Hshape. reflexivity.
    + right. destruct Hshape as (rest' & -> & _). exists rest'. reflexivity.
  - intros [Htoken [->| [rest ->]]].
    + change ("Bearer " +:+ token) with ("Bearer" +:+ String " " token).
      rewrite js_split_spaceless by reflexivity.
      rewrite js_split_spaceless_end by exact Htoken. reflexivity.
    + change ("Bearer " +:+ token +:+ String " " rest)
        with ("Bearer" +:+ String " " (token +:+ String " " rest)).
      rewrite js_split_spaceless by reflexivity.
      rewrite js_split_spaceless by exact Htoken. reflexivity.
Qed.

(** The guard rejects unless the token it extracted is truthy. *)
Lemma canActivate_cases (validToken authorization : option string) :
  fst (canActivate validToken authorization) =
  match authorization with
  | None => inl (UnauthorizedException "Missing Authorization header")
  | Some authHeader =>
      if truthy authHeader then
        match extractTokenFromHeader authHeader with
        | Some token =>
            if truthy token then
              if bool_decide (Some token = validToken) then inr true
              else inl (UnauthorizedException "Invalid bearer token")
            else inl (UnauthorizedException "Invalid Authorization header format")
        | None => inl (UnauthorizedException "Invalid Authorization header format")
        end
      else inl (UnauthorizedException "Missing Authorization header")
  end.
Proof.
  unfold canActivate. destruct authorization as [authHeader|]; [|reflexivity].
  destruct (truthy authHeader); [|reflexivity]. cbn [negb].
  destruct (extractTokenFromHeader authHeader) as [token|]; [|reflexivity].
  destruct (truthy token); [|reflexivity]. cbn [negb].
  destruct (bool_decide (Some token = validToken)); reflexivity.
Qed.

Lemma bearer_header_truthy (tail : string) : truthy ("Bearer " +:+ tail) = true.
Proof. reflexivity. Qed.

(** X1: the guard lets a request pass exactly when the configured token is a
    non-empty string without a space and the Authorization header is
    [Bearer], one space and that token, either ending there or going on
    with a space and anything at all. *)
Theorem canActivate_accepts_iff (validToken authorization : option string) :
  fst (canActivate validToken authorization) = inr true <->
  exists token,
    validToken = Some token /\ token <> EmptyString /\ spaceless token = true /\
    (authorization = Some ("Bearer " +:+ token) \/
     exists rest, authorization = Some ("Bearer " +:+ token +:+ String " " rest)).
Proof.
  rewrite canActivate_cases. split.
  - destruct authorization as [authHeader|]; [|discriminate].
    destruct (truthy authHeader); [|discriminate].
    destruct (extractTokenFromHeader authHeader) as [token|] eqn:Htoken;
      [|discriminate].
    destruct (truthy token) eqn:Htruthy; [|discriminate].
    destruct (bool_decide_reflect (Some token = validToken)) as [Hvalid|];
      [|discriminate].
    intros _. exists token. apply truthy_nonempty in Htruthy.
    apply extractTokenFromHeader_Some in Htoken as [Hspaceless Hshape].
    split; [symmetry; exact Hvalid|]. split; [exact Htruthy|].
    split; [exact Hspaceless|].
    destruct Hshape as [->|[rest ->]]; [left; reflexivity|right; exists rest; reflexivity].
  - intros (token & -> & Hne & Hspaceless & Hshape).
    assert (Hextract : exists authHeader,
              authorization = Some authHeader /\ truthy authHeader = true /\
              extractTokenFromHeader authHeader = Some token).
    { destruct Hshape as [->|[rest ->]]; eexists; (split; [reflexivity|]);
        (split; [apply bearer_header_truthy|]);
        apply extractTokenFromHeader_Some; (split; [exact Hspaceless|]); eauto. }
    destruct Hextract as (authHeader & -> & -> & ->).
    apply truthy_nonempty in Hne. rewrite Hne.
    rewrite bool_decide_eq_true_2 by reflexivity. reflexivity.
Qed.

(** X2: the guard never answers [false]; it throws [Missing Authorization
    header] exactly when the header is absent or empty, and [Invalid bearer
    token] exactly when the header has the shape [Bearer <token>] or
    [Bearer <token> <anything>] with a non-empty token that is not the
    configured one. *)
Theorem canActivate_rejections (validToken authorization : option string) :
  fst (canActivate validToken authorization) <> inr false /\
  (fst (canActivate validToken authorization)
   = inl (UnauthorizedException "Missing Authorization header") <->
   authorization = None \/ authorization = Some EmptyString) /\
  (fst (canActivate validToken authorization)
   = inl (UnauthorizedException "Invalid bearer token") <->
   exists token,
     token <> EmptyString /\ spaceless token = true /\ validToken <> Some token /\
     (authorization = Some ("Bearer " +:+ token) \/
      exists rest, authorization = Some ("Bearer " +:+ token +:+ String " " rest))).
Proof.
  rewrite canActivate_cases.
  destruct authorization as [authHeader|].
  - destruct (truthy authHeader) eqn:Hheader.
    + apply truthy_nonempty in Hheader.
      destruct (extractTokenFromHeader authHeader) as [token|] eqn:Htoken.
      * destruct (truthy token) eqn:Htruthy.
        -- apply truthy_nonempty in Htruthy.
           apply extractTokenFromHeader_Some in Htoken as [Hspaceless Hshape].
           destruct (bool_decide_reflect (Some token = validToken)) as [Hvalid|Hvalid].
           ++ split; [discriminate|]. split.
              ** split; [discriminate|]. intros [[=]|[= ->]]. congruence.
              ** split; [discriminate|].
                 intros (token' & _ & Hspaceless' & Hdiff & Hshape'). exfalso.
                 assert (Hsame : extractTokenFromHeader authHeader = Some token').
                 { apply extractTokenFromHeader_Some. split; [exact Hspaceless'|].
                   destruct Hshape' as [[= ->]|[rest [= ->]]]; eauto. }
                 assert (Hmine : extractTokenFromHeader authHeader = Some token).
                 { apply extractTokenFromHeader_Some. split; [exact Hspaceless|].
                   exact Hshape. }
                 congruence.
           ++ split; [discriminate|]. split.
              ** split; [discriminate|]. intros [[=]|[= ->]]. congruence.
              ** split; [|reflexivity]. intros _. exists token.
                 split; [exact Htruthy|]. split; [exact Hspaceless|].
                 split; [congruence|].
                 destruct Hshape as [->|[rest ->]]; eauto.
        -- split; [discriminate|]. split.
           ++ split; [discriminate|]. intros [[=]|[= ->]]. congruence.
           ++ split; [discriminate|].
              intros (token' & Hne' & Hspaceless' & _ & Hshape'). exfalso.
              assert (Hsame : extractTokenFromHeader authHeader = Some token').
              { apply extractTokenFromHeader_Some. split; [exact Hspaceless'|].
                destruct Hshape' as [[= ->]|[rest [= ->]]]; eauto. }
              apply truthy_nonempty in Hne'. congruence.
      * split; [discriminate|]. split.
        -- split; [discriminate|]. intros [[=]|[= ->]]. congruence.
        -- split; [discriminate|].
           intros (token' & _ & Hspaceless' & _ & Hshape'). exfalso.
           assert (Hsame : extractTokenFromHeader authHeader = Some token').
           { apply extractTokenFromHeader_Some. split; [exact Hspaceless'|].
             destruct Hshape' as [[= ->]|[rest [= ->]]]; eauto. }
           congruence.
    + assert (authHeader = EmptyString) as ->.
      { destruct authHeader; [reflexivity|discriminate]. }
      split; [discriminate|]. split.
      * split; [intros _; right; reflexivity|reflexivity].
      * split; [discriminate|].
        intros (token' & _ & _ & _ & [[=]|[rest [=]]]).
  - split; [discriminate|]. split.
    + split; [intros _; left; reflexivity|reflexivity].
    + split; [discriminate|].
      intros (token' & _ & _ & _ & [[=]|[rest [=]]]).
Qed.

(** X3: a configured token that is missing, empty, or has a space in it
    can be matched by no header: the guard throws on every request. *)
Theorem canActivate_unusable_token (validToken authorization : option string) :
  (forall token, validToken = Some token ->
     token = EmptyString \/ spaceless token = false) ->
  exists message,
    fst (canActivate validToken authorization)
    = inl (UnauthorizedException message).
Proof.
  intros Hunusable. rewrite canActivate_cases.
  destruct authorization as [authHeader|]; [|eauto].
  destruct (truthy authHeader); [|eauto].
  destruct (extractTokenFromHeader authHeader) as [token|] eqn:Htoken; [|eauto].
  destruct (truthy token) eqn:Htruthy; [|eauto].
  destruct (bool_decide_reflect (Some token = validToken)) as [Hvalid|]; [|eauto].
  exfalso. apply truthy_nonempty in Htruthy.
  apply extractTokenFromHeader_Some in Htoken as [Hspaceless _].
  destruct (Hunusable token (eq_sym Hvalid)); congruence.
Qed.

Lemma canActivate_unusable_token_witness :
  (forall token, Some "my secret"%string = Some token ->
     token = EmptyString \/ spaceless token = false) /\
  exists message,
    fst (canActivate (Some "my secret"%string) (Some "Bearer my secret"%string))
    = inl (UnauthorizedException message).
Proof.
  assert (Hunusable : forall token, Some "my secret"%string = Some token ->
            token = EmptyString \/ spaceless token = false).
  { intros token [= <-]. right. reflexivity. }
  split; [exact Hunusable|].
  exact (canActivate_unusable_token _ (Some "Bearer my secret"%string) Hunusable).
Defined.

(** ** Properties of the controller *)

Lemma subtype_pattern_here_spec (s : string) :
  subtype_pattern_here s = true <->
  exists subtype, In subtype image_subtypes /\ s = String "/" subtype.
Proof.
  unfold subtype_pattern_here. rewrite existsb_exists. split.
  - intros (subtype & Hin & Heq). apply String.eqb_eq in Heq. eauto.
  - intros (subtype & Hin & ->). exists subtype. split; [exact Hin|].
    apply String.eqb_refl.
Qed.

Lemma subtype_pattern_matches_spec (s : string) :
  subtype_pattern_matches s = true <->
  exists before subtype,
    In subtype image_subtypes /\ s = before +:+ String "/" subtype.
Proof.
  induction s as [|c s IH].
  - cbn [subtype_pattern_matches]. rewrite orb_false_r, subtype_pattern_here_spec.
    split.
    + intros (subtype & _ & [=]).
    + intros (before & subtype & _ & Heq). destruct before; discriminate.
  - cbn [subtype_pattern_matches]. rewrite orb_true_iff, subtype_pattern_here_spec, IH.
    split.
    + intros [(subtype & Hin & Heq)|(before & subtype & Hin & ->)].
      * exists EmptyString, subtype. split; [exact Hin|exact Heq].
      * exists (String c before), subtype. split; [exact Hin|reflexivity].
    + intros (before & subtype & Hin & Heq). destruct before as [|c' before].
      * left. exists subtype. split; [exact Hin|exact Heq].
      * right. injection Heq as -> ->. exists before, subtype.
        split; [exact Hin|reflexivity].
Qed.

(** X4: the upload filter lets a file through exactly when its MIME type
    ends in a slash followed by one of [jpg], [jpeg], [png], [gif], [bmp],
    [webp], in lower case, whatever stands before the slash; any other file
    is refused with [Only image files are allowed]. *)
Theorem fileFilter_accepts_iff (mimetype : string) :
  (fileFilter mimetype = (None, true) <->
   exists before subtype,
     In subtype image_subtypes /\ mimetype = before +:+ String "/" subtype) /\
  (fileFilter mimetype <> (None, true) ->
   fileFilter mimetype
   = (Some (BadRequestException "Only image files are allowed"), false)).
Proof.
  unfold fileFilter. rewrite <- subtype_pattern_matches_spec.
  destruct (subtype_pattern_matches mimetype); cbn [negb].
  - split; [split; reflexivity|]. intros Hrefused. exfalso. apply Hrefused.
    reflexivity.
  - split; [split; discriminate|]. intros _. reflexivity.
Qed.

(** X5: the controller throws exactly when no file was uploaded, and then
    without calling the service.  For an uploaded file it always answers:
    the metadata echo the file; [success] is [true] exactly when the service
    returned a non-empty text, which is then the [text] of the answer, with
    no [error]; otherwise [text] is [null] and [error] is [Failed to process
    the image] exactly when the service threw, and [No QR code found in the
    image] when it did not. *)
Theorem decodeQr_answers
    `{JimpLibrary} `{ZXingLibrary} (world : World) (file : option File) :
  ((exists e, fst (decodeQr world file) = Thrown e) <-> file = None) /\
  (file = None ->
   decodeQr world file
   = (Thrown (BadRequestException "File is required"), [EvLog CtlNoFile])) /\
  (forall uploaded, file = Some uploaded ->
   exists response,
     fst (decodeQr world file) = Returned response /\
     metadata response = metadata_of uploaded /\
     (success response = true <->
      exists value, value <> EmptyString /\
        fst (decodeQrFromBuffer world (buffer uploaded)) = Returned (Some value)) /\
     (forall value,
        fst (decodeQrFromBuffer world (buffer uploaded)) = Returned (Some value) ->
        value <> EmptyString ->
        text response = Some value /\ error response = None) /\
     (success response = false ->
      text response = None /\
      ((exists e, fst (decodeQrFromBuffer world (buffer uploaded)) = Thrown e) /\
       error response = Some "Failed to process the image"%string \/
       (exists value, fst (decodeQrFromBuffer world (buffer uploaded)) = Returned value) /\
       error response = Some "No QR code found in the image"%string))).
Proof.
  split; [|split].
  - destruct file as [uploaded|].
    + rewrite decodeQr_response. split; [intros [e [=]]|discriminate].
    + split; [reflexivity|]. intros _. eexists. reflexivity.
  - intros ->. reflexivity.
  - intros uploaded ->. rewrite decodeQr_response.
    destruct (fst (decodeQrFromBuffer world (buffer uploaded))) as [[value|]|e].
    + destruct (truthy value) eqn:Htruthy.
      * apply truthy_nonempty in Htruthy. eexists. split; [reflexivity|].
        cbn [metadata success text error].
        split; [reflexivity|]. split; [split; eauto|].
        split; [intros v [= <-] _; split; reflexivity|discriminate].
      * assert (value = EmptyString) as ->.
        { destruct value; [reflexivity|discriminate]. }
        eexists. split; [reflexivity|]. cbn [metadata success text error].
        split; [reflexivity|].
        split; [split; [discriminate|intros (v & Hv & [= <-]); congruence]|].
        split; [intros v [= <-] Hv; congruence|].
        intros _. split; [reflexivity|]. right. split; [eauto|reflexivity].
    + eexists. split; [reflexivity|]. cbn [metadata success text error].
      split; [reflexivity|].
      split; [split; [discriminate|intros (v & _ & [=])]|].
      split; [intros v [=]|].
      intros _. split; [reflexivity|]. right. split; [eauto|reflexivity].
    + eexists. split; [reflexivity|]. cbn [metadata success text error].
      split; [reflexivity|].
      split; [split; [discriminate|intros (v & _ & [=])]|].
      split; [intros v [=]|].
      intros _. split; [reflexivity|]. left. split; [eauto|reflexivity].
Qed.

(** X6: when jimp cannot read the uploaded bytes, the service logs the start,
    calls [Jimp.read], logs the error and rethrows it: no image analysis, no
    decoding attempt, no debug image; the controller turns the error into
    the answer [Failed to process the image]. *)
Theorem unreadable_image_fails_the_request
    `{JimpLibrary} `{ZXingLibrary} (world : World) (file : File) (e : JsError) :
  Jimp_read (buffer file) = Thrown e ->
  decodeQrFromBuffer world (buffer file)
  = (Thrown e, [EvLog DbgStarting; EvJimp CallRead; EvLog (ErrUnexpected e)]) /\
  attempts (snd (decodeQrFromBuffer world (buffer file))) = [] /\
  fst (decodeQr world (Some file))
  = Returned (MkResponse false None (Some "Failed to process the image"%string)
                         (metadata_of file)).
Proof.
  intros Hread.
  pose proof (decodeQrFromBuffer_unreadable world (buffer file) e Hread) as Hrun.
  split; [exact Hrun|]. split; [rewrite Hrun; reflexivity|].
  rewrite decodeQr_response, Hrun. reflexivity.
Qed.

Lemma unreadable_image_fails_the_request_witness :
  @Jimp_read stubJimp (buffer (MkFile "empty.png" 0 "image/png" []))
  = Thrown (OtherError "Could not find MIME for Buffer") /\
  fst (@decodeQr stubJimp (constantZXing (Returned "A"%string)) quietWorld
         (Some (MkFile "empty.png" 0 "image/png" [])))
  = Returned (MkResponse false None (Some "Failed to process the image"%string)
                         (metadata_of (MkFile "empty.png" 0 "image/png" []))).
Proof.
  split; [reflexivity|].
  exact (proj2 (proj2
    (@unreadable_image_fails_the_request stubJimp (constantZXing (Returned "A"%string))
       quietWorld (MkFile "empty.png" 0 "image/png" [])
       (OtherError "Could not find MIME for Buffer") eq_refl))).
Defined.

(** ** Properties of the black-and-white conversions *)

Lemma scan_data (f : RGBA -> RGBA) (image : Jimp) :
  length (bitmap_data image) = (getWidth image * getHeight image)%nat ->
  bitmap_data (scan f image) = f <$> bitmap_data image.
Proof.
  intros Hlen. unfold scan. cbn [bitmap_data].
  rewrite <- Hlen, firstn_all, drop_all, app_nil_r. reflexivity.
Qed.

Lemma scan_eq (f : RGBA -> RGBA) (image : Jimp) :
  length (bitmap_data image) = (getWidth image * getHeight image)%nat ->
  scan f image = MkJimp (getWidth image) (getHeight image) (f <$> bitmap_data image).
Proof.
  intros Hlen. unfold scan. cbv zeta.
  rewrite <- Hlen, firstn_all, drop_all, app_nil_r. reflexivity.
Qed.

Lemma black_or_white_values (cutoff : Z) (p : RGBA) :
  black_or_white_pixel (black_or_white cutoff p) /\
  alpha (black_or_white cutoff p) = alpha p.
Proof.
  unfold black_or_white, black_or_white_pixel, is_grey. cbv zeta.
  cbn [red green blue alpha]. destruct (red p >? cutoff); auto.
Qed.

Lemma black_or_white_again (cutoff : Z) (p : RGBA) :
  is_byte (red p) ->
  black_or_white cutoff (black_or_white cutoff p) = black_or_white cutoff p.
Proof.
  unfold black_or_white, is_byte. cbv zeta. cbn [red green blue alpha]. intros Hbyte.
  destruct (Z.gtb_spec (red p) cutoff) as [Hgt|Hle].
  - destruct (Z.gtb_spec 255 cutoff); [reflexivity|lia].
  - destruct (Z.gtb_spec 0 cutoff); [lia|reflexivity].
Qed.

Lemma black_or_white_valid (cutoff : Z) (p : RGBA) :
  valid_pixel p -> valid_pixel (black_or_white cutoff p).
Proof.
  unfold valid_pixel, black_or_white, is_byte. cbv zeta. cbn [red green blue alpha].
  intros (_ & _ & _ & Ha). destruct (red p >? cutoff); lia.
Qed.

(** X7: on an image of [width * height] valid pixels, the black-and-white
    scan keeps the dimensions and every alpha byte, leaves only pure black
    and pure white pixels, white exactly where the first byte exceeded the
    cutoff, and scanning the result again with the same cutoff changes
    nothing. *)
Theorem black_or_white_scan (cutoff : Z) (image : Jimp) :
  valid_image image ->
  getWidth (scan (black_or_white cutoff) image) = getWidth image /\
  getHeight (scan (black_or_white cutoff) image) = getHeight image /\
  valid_image (scan (black_or_white cutoff) image) /\
  Forall black_or_white_pixel (bitmap_data (scan (black_or_white cutoff) image)) /\
  (forall i p,
     bitmap_data image !! i = Some p ->
     exists q,
       bitmap_data (scan (black_or_white cutoff) image) !! i = Some q /\
       alpha q = alpha p /\ (red q = 255 <-> cutoff < red p)) /\
  scan (black_or_white cutoff) (scan (black_or_white cutoff) image)
  = scan (black_or_white cutoff) image.
Proof.
  intros [Hlen Hvalid].
  pose proof (scan_data (black_or_white cutoff) image Hlen) as Hdata.
  assert (Hlen' : length (bitmap_data (scan (black_or_white cutoff) image))
                  = (getWidth (scan (black_or_white cutoff) image)
                     * getHeight (scan (black_or_white cutoff) image))%nat).
  { rewrite Hdata, length_fmap. exact Hlen. }
  split; [reflexivity|]. split; [reflexivity|].
  split; [|split; [|split]].
  - split; [exact Hlen'|]. rewrite Hdata. apply Forall_fmap.
    eapply Forall_impl; [exact Hvalid|]. intros p Hp. apply black_or_white_valid, Hp.
  - rewrite Hdata. apply Forall_fmap, Forall_forall. intros p _.
    apply black_or_white_values.
  - intros i p Hp. exists (black_or_white cutoff p). rewrite Hdata, list_lookup_fmap, Hp.
    split; [reflexivity|]. split; [apply black_or_white_values|].
    unfold black_or_white. cbv zeta. cbn [red].
    destruct (Z.gtb_spec (red p) cutoff); split; intros; (lia || discriminate || reflexivity).
  - rewrite (scan_eq _ (scan (black_or_white cutoff) image) Hlen').
    rewrite Hdata. rewrite (scan_eq _ image Hlen). cbn [getWidth getHeight].
    f_equal. rewrite <- list_fmap_compose. apply Forall_fmap_ext_1.
    eapply Forall_impl; [exact Hvalid|]. intros p (Hr & _). cbn.
    apply black_or_white_again, Hr.
Qed.

Lemma black_or_white_scan_witness :
  valid_image (MkJimp 2 1 [gray_pixel 10; gray_pixel 200]) /\
  scan (black_or_white 128) (scan (black_or_white 128)
         (MkJimp 2 1 [gray_pixel 10; gray_pixel 200]))
  = scan (black_or_white 128) (MkJimp 2 1 [gray_pixel 10; gray_pixel 200]).
Proof.
  assert (Hvalid : valid_image (MkJimp 2 1 [gray_pixel 10; gray_pixel 200])).
  { split; [reflexivity|]. repeat constructor; cbn; lia. }
  split; [exact Hvalid|].
  exact (proj2 (proj2 (proj2 (proj2 (proj2
    (black_or_white_scan 128 _ Hvalid)))))).
Defined.

(** ** Properties of the grey-level histogram *)

(** The number of pixels of grey level [v]. *)
Lemma bin_alter_succ (histogram : list Z) (i v : nat) :
  (i < length histogram)%nat ->
  bin (alter Z.succ i histogram) v
  = bin histogram v + (if decide (i = v) then 1 else 0).
Proof.
  intros Hi. unfold bin. destruct (decide (i = v)) as [->|Hne].
  - rewrite list_lookup_alter_eq.
    destruct (lookup_lt_is_Some_2 histogram v Hi) as [c ->]. cbn. lia.
  - rewrite list_lookup_alter_ne by exact Hne. lia.
Qed.

Lemma total_alter_succ (histogram : list Z) (i : nat) (a : Z) :
  (i < length histogram)%nat ->
  foldl Z.add a (alter Z.succ i histogram) = foldl Z.add a histogram + 1.
Proof.
  revert i a. induction histogram as [|c histogram IH]; intros i a Hi;
    [cbn in Hi; lia|].
  destruct i as [|i].
  - change (alter Z.succ 0%nat (c :: histogram)) with (Z.succ c :: histogram).
    cbn [foldl].
    rewrite (foldl_add_shift histogram (a + Z.succ c)),
            (foldl_add_shift histogram (a + c)). lia.
  - change (alter Z.succ (S i) (c :: histogram)) with (c :: alter Z.succ i histogram).
    cbn [foldl]. apply IH. cbn in Hi. lia.
Qed.

Lemma count_histogram (pixels : list RGBA) :
  Forall valid_pixel pixels ->
  forall histogram,
    length histogram = 256%nat ->
    let counted :=
      foldl (fun h p => alter Z.succ (Z.to_nat (red p)) h) histogram pixels in
    length counted = 256%nat /\
    foldl Z.add 0 counted = foldl Z.add 0 histogram + Z.of_nat (length pixels) /\
    forall v : nat,
      bin counted v
      = bin histogram v
        + Z.of_nat (length (filter (fun p => red p = Z.of_nat v) pixels)).
Proof.
  induction 1 as [|p pixels Hp Hpixels IH]; intros histogram Hlen.
  - cbn. repeat split; [exact Hlen|lia|intros; lia].
  - cbn [foldl]. cbv zeta.
    assert (Hbyte : (Z.to_nat (red p) < length histogram)%nat).
    { destruct Hp as (Hr & _). unfold is_byte in Hr. lia. }
    destruct (IH (alter Z.succ (Z.to_nat (red p)) histogram)) as (Hl & Htotal & Hbin).
    { rewrite length_alter. exact Hlen. }
    split; [exact Hl|]. split.
    + rewrite Htotal, total_alter_succ by exact Hbyte. cbn [length]. lia.
    + intros v. rewrite Hbin, bin_alter_succ by exact Hbyte.
      rewrite filter_cons. destruct Hp as (Hr & _). unfold is_byte in Hr.
      destruct (decide (Z.to_nat (red p) = v)) as [Heq|Hne];
        destruct (decide (red p = Z.of_nat v)) as [Heq'|Hne']; cbn [length]; lia.
Qed.

Lemma bin_replicate_zero (n v : nat) : bin (replicate n 0) v = 0.
Proof.
  unfold bin. destruct (replicate n 0 !! v) as [c|] eqn:Hc; [|reflexivity].
  apply lookup_replicate in Hc as [-> _]. reflexivity.
Qed.

Lemma total_replicate_zero (n : nat) : foldl Z.add 0 (replicate n 0) = 0.
Proof. induction n as [|n IH]; [reflexivity|exact IH]. Qed.

(** X8: the histogram of a valid image has 256 bins, none negative; bin [v]
    holds the number of pixels whose grey byte is [v], and the bins add up
    to [width * height]. *)
Theorem gray_histogram_counts (image : Jimp) :
  valid_image image ->
  length (gray_histogram image) = 256%nat /\
  Forall (fun c => 0 <= c) (gray_histogram image) /\
  (forall v : nat,
     bin (gray_histogram image) v
     = Z.of_nat (length (filter (fun p => red p = Z.of_nat v) (bitmap_data image)))) /\
  foldl Z.add 0 (gray_histogram image)
  = Z.of_nat (getWidth image * getHeight image).
Proof.
  intros [Hlen Hvalid]. unfold gray_histogram.
  rewrite <- Hlen, firstn_all.
  destruct (count_histogram (bitmap_data image) Hvalid (replicate 256 0))
    as (Hl & Htotal & Hbin); [apply length_replicate|].
  cbv zeta in Hl, Htotal, Hbin.
  split; [exact Hl|]. split; [|split].
  - apply Forall_forall. intros c Hc.
    apply list_elem_of_lookup in Hc as [v Hv].
    rewrite <- (bin_lookup _ _ _ Hv), Hbin, bin_replicate_zero. lia.
  - intros v. rewrite Hbin, bin_replicate_zero. lia.
  - rewrite Htotal, total_replicate_zero. lia.
Qed.

Lemma gray_histogram_counts_witness :
  valid_image (MkJimp 2 1 [gray_pixel 10; gray_pixel 200]) /\
  foldl Z.add 0 (gray_histogram (MkJimp 2 1 [gray_pixel 10; gray_pixel 200])) = 2.
Proof.
  assert (Hvalid : valid_image (MkJimp 2 1 [gray_pixel 10; gray_pixel 200])).
  { split; [reflexivity|]. repeat constructor; cbn; lia. }
  split; [exact Hvalid|].
  exact (proj2 (proj2 (proj2 (gray_histogram_counts _ Hvalid)))).
Defined.

(** ** The threshold method: where the Otsu threshold falls *)

Lemma gray_histogram_length (image : Jimp) : length (gray_histogram image) = 256%nat.
Proof.
  unfold gray_histogram.
  generalize (take (getWidth image * getHeight image) (bitmap_data image)).
  intros pixels.
  assert (Hgen : forall histogram, length histogram = 256%nat ->
            length (foldl (fun h p => alter Z.succ (Z.to_nat (red p)) h)
                          histogram pixels) = 256%nat).
  { induction pixels as [|p pixels IH]; intros histogram Hlen; [exact Hlen|].
    cbn [foldl]. apply IH. rewrite length_alter. exact Hlen. }
  apply Hgen, length_replicate.
Qed.

Lemma gray_histogram_bin (image : Jimp) (v : nat) :
  valid_image image ->
  bin (gray_histogram image) v
  = Z.of_nat (length (filter (fun p => red p = Z.of_nat v) (bitmap_data image))).
Proof.
  intros [Hlen Hvalid]. unfold gray_histogram. rewrite <- Hlen, firstn_all.
  destruct (count_histogram (bitmap_data image) Hvalid (replicate 256 0))
    as (_ & _ & Hbin); [apply length_replicate|].
  cbv zeta in Hbin. rewrite Hbin, bin_replicate_zero. lia.
Qed.

Lemma gray_histogram_nonneg (image : Jimp) :
  valid_image image -> Forall (fun c => 0 <= c) (gray_histogram image).
Proof.
  intros Hvalid. apply Forall_forall. intros c Hc.
  apply list_elem_of_lookup in Hc as [v Hv].
  rewrite <- (bin_lookup _ _ _ Hv), gray_histogram_bin by exact Hvalid. lia.
Qed.

(** A bin is occupied exactly when some pixel has its grey level. *)
Lemma gray_histogram_occupied (image : Jimp) (v : nat) :
  valid_image image ->
  bin (gray_histogram image) v <> 0 <->
  exists p, In p (bitmap_data image) /\ red p = Z.of_nat v.
Proof.
  intros Hvalid. rewrite gray_histogram_bin by exact Hvalid. split.
  - intros Hcount.
    destruct (filter (fun p => red p = Z.of_nat v) (bitmap_data image))
      as [|p rest] eqn:Hfilter; [cbn in Hcount; lia|].
    assert (Hp : p ∈ filter (fun p => red p = Z.of_nat v) (bitmap_data image)).
    { rewrite Hfilter. left. }
    apply list_elem_of_filter in Hp as [Hred Hin].
    exists p. split; [apply list_elem_of_In; exact Hin|exact Hred].
  - intros (p & Hin & Hred).
    assert (Hp : p ∈ filter (fun p => red p = Z.of_nat v) (bitmap_data image)).
    { apply list_elem_of_filter. split; [exact Hred|apply list_elem_of_In; exact Hin]. }
    destruct (filter _ _); [inversion Hp|cbn [length]; lia].
Qed.

(** Between two indices with different prefix weights lies an occupied
    bin. *)
Lemma weight_gap_occupied (histogram : list Z) (n m : nat) :
  (n <= m)%nat ->
  weight_below histogram m - weight_below histogram n <> 0 ->
  exists j, (n <= j < m)%nat /\ bin histogram j <> 0.
Proof.
  induction m as [|m IH]; intros Hnm Hgap.
  - replace n with 0%nat in Hgap by lia. lia.
  - destruct (decide (n = S m)) as [->|Hne]; [lia|].
    rewrite weight_below_S in Hgap.
    destruct (decide (bin histogram m = 0)) as [Hzero|Hocc].
    + destruct IH as (j & Hj & Hbin); [lia|lia|]. exists j. split; [lia|exact Hbin].
    + exists m. split; [lia|exact Hocc].
Qed.

Lemma candidate_occupied (histogram : list Z) (t : nat) :
  (t <= 255)%nat -> candidate histogram t ->
  (exists i, (i <= t)%nat /\ bin histogram i <> 0) /\
  (exists j, (t < j <= 255)%nat /\ bin histogram j <> 0).
Proof.
  unfold candidate, otsu_wF, otsu_wB. intros Ht [Hb Hf]. split.
  - destruct (weight_gap_occupied histogram 0 (S t)) as (i & Hi & Hbin); [lia| |].
    + rewrite weight_below_0. lia.
    + exists i. split; [lia|exact Hbin].
  - destruct (weight_gap_occupied histogram (S t) 256) as (j & Hj & Hbin);
      [lia|exact Hf|].
    exists j. split; [lia|exact Hbin].
Qed.

(** Two occupied bins make the lower one a candidate. *)
Lemma occupied_candidate (histogram : list Z) (lo hi : nat) :
  Forall (fun c => 0 <= c) histogram ->
  (lo < hi)%nat -> (hi <= 255)%nat ->
  bin histogram lo <> 0 -> bin histogram hi <> 0 ->
  candidate histogram lo.
Proof.
  intros Hnonneg Hlt Hhi Hlo Hhi'. unfold candidate, otsu_wF, otsu_wB.
  pose proof (bin_nonneg histogram Hnonneg lo) as Hblo.
  pose proof (bin_nonneg histogram Hnonneg hi) as Hbhi.
  pose proof (weight_below_nonneg histogram Hnonneg lo) as Hwlo.
  pose proof (weight_below_mono histogram Hnonneg (S lo) hi ltac:(lia)) as Hm1.
  pose proof (weight_below_mono histogram Hnonneg (S hi) 256 ltac:(lia)) as Hm2.
  pose proof (weight_below_S histogram lo) as Hslo.
  pose proof (weight_below_S histogram hi) as Hshi.
  split; lia.
Qed.

(** With two occupied bins the threshold has an occupied bin at or below it
    and one above it. *)
Lemma otsu_threshold_occupied (histogram : list Z) (lo hi : nat) :
  length histogram = 256%nat ->
  Forall (fun c => 0 <= c) histogram ->
  (lo < hi)%nat -> (hi <= 255)%nat ->
  bin histogram lo <> 0 -> bin histogram hi <> 0 ->
  exists t : nat,
    calculateOtsuThreshold histogram = Some (Z.of_nat t) /\ (t <= 255)%nat /\
    (exists i, (i <= t)%nat /\ bin histogram i <> 0) /\
    (exists j, (t < j <= 255)%nat /\ bin histogram j <> 0).
Proof.
  intros Hlen Hnonneg Hlt Hhi Hlo Hhi'.
  destruct (otsu_first_maximum histogram Hlen Hnonneg) as (t & Ht & Hle & _ & Hmax).
  destruct (Hmax lo ltac:(lia)
              (occupied_candidate histogram lo hi Hnonneg Hlt Hhi Hlo Hhi'))
    as [Hcand _].
  destruct (candidate_occupied histogram t Hle Hcand) as [Hbelow Habove].
  exists t. auto.
Qed.

(** X9: on a histogram of 256 non-negative counts with at least two
    occupied bins, the threshold is at least the lowest occupied grey level
    and strictly below the highest one. *)
Theorem otsu_threshold_separates (histogram : list Z) (lo hi : nat) :
  length histogram = 256%nat ->
  Forall (fun c => 0 <= c) histogram ->
  (lo < hi)%nat -> (hi <= 255)%nat ->
  bin histogram lo <> 0 -> bin histogram hi <> 0 ->
  exists t : nat,
    calculateOtsuThreshold histogram = Some (Z.of_nat t) /\
    (exists i, (i <= t)%nat /\ bin histogram i <> 0) /\
    (exists j, (t < j <= 255)%nat /\ bin histogram j <> 0) /\
    (forall darkest brightest : nat,
       (forall v, (v <= 255)%nat -> bin histogram v <> 0 ->
          (darkest <= v <= brightest)%nat) ->
       (darkest <= t < brightest)%nat).
Proof.
  intros Hlen Hnonneg Hlt Hhi Hlo Hhi'.
  destruct (otsu_threshold_occupied histogram lo hi Hlen Hnonneg Hlt Hhi Hlo Hhi')
    as (t & Ht & Hle & (i & Hi & Hbi) & (j & Hj & Hbj)).
  exists t. split; [exact Ht|]. split; [eauto|]. split; [eauto|].
  intros darkest brightest Hsupport.
  pose proof (Hsupport i ltac:(lia) Hbi). pose proof (Hsupport j ltac:(lia) Hbj). lia.
Qed.

Lemma otsu_threshold_separates_witness :
  length (two_peaks 50 200 10 10) = 256%nat /\
  (50 < 200)%nat /\ (200 <= 255)%nat /\
  exists t : nat,
    calculateOtsuThreshold (two_peaks 50 200 10 10) = Some (Z.of_nat t) /\
    (exists j, (t < j <= 255)%nat /\ bin (two_peaks 50 200 10 10) j <> 0).
Proof.
  assert (Hlen : length (two_peaks 50 200 10 10) = 256%nat) by reflexivity.
  assert (Hnonneg : Forall (fun c => 0 <= c) (two_peaks 50 200 10 10)).
  { apply two_peaks_nonneg; lia. }
  assert (H1 : (50 < 200)%nat) by lia.
  assert (H2 : (200 <= 255)%nat) by lia.
  assert (Hlo : bin (two_peaks 50 200 10 10) 50 <> 0) by (vm_compute; discriminate).
  assert (Hhi : bin (two_peaks 50 200 10 10) 200 <> 0) by (vm_compute; discriminate).
  destruct (otsu_threshold_separates _ 50 200 Hlen Hnonneg H1 H2 Hlo Hhi)
    as (t & Ht & _ & Hj & _).
  split; [exact Hlen|]. split; [exact H1|]. split; [exact H2|].
  exists t. split; [exact Ht|exact Hj].
Defined.

(** The threshold method when [greyscale] returns. *)
Lemma preprocess_threshold `{JimpLibrary} (image g : Jimp) :
  Jimp_greyscale image = Returned g ->
  preprocess "threshold" image
  = (Returned (scan (black_or_white
                       (default 0 (calculateOtsuThreshold (gray_histogram g)))) g),
     [EvJimp CallGreyscale;
      EvLog (DbgOtsuThreshold (default 0 (calculateOtsuThreshold (gray_histogram g))))]).
Proof.
  intros Hgrey. unfold preprocess. cbn [String.eqb Ascii.eqb Bool.eqb].
  unfold greyscale. rewrite Hgrey. reflexivity.
Qed.

Lemma valid_red_level (image : Jimp) (p : RGBA) :
  valid_image image -> In p (bitmap_data image) ->
  red p = Z.of_nat (Z.to_nat (red p)) /\ (Z.to_nat (red p) <= 255)%nat.
Proof.
  intros [_ Hvalid] Hin. rewrite Forall_forall in Hvalid.
  destruct (Hvalid p) as ([Hlo Hhi] & _); [apply list_elem_of_In; exact Hin|]. lia.
Qed.

(** X10: when the greyscale image has two pixels of different grey levels,
    the threshold method turns every darkest pixel black and every
    brightest pixel white: the Otsu threshold it computes and logs is at
    least the lowest grey level and below the highest. *)
Theorem threshold_method_keeps_extremes
    `{JimpLibrary} (image g : Jimp) (dark bright : RGBA) :
  Jimp_greyscale image = Returned g ->
  valid_image g ->
  In dark (bitmap_data g) -> In bright (bitmap_data g) -> red dark < red bright ->
  exists t out,
    preprocess "threshold" image
    = (Returned out, [EvJimp CallGreyscale; EvLog (DbgOtsuThreshold t)]) /\
    0 <= t <= 255 /\
    (forall p, In p (bitmap_data g) -> (forall q, In q (bitmap_data g) -> red p <= red q) ->
       red p <= t) /\
    (forall p, In p (bitmap_data g) -> (forall q, In q (bitmap_data g) -> red q <= red p) ->
       t < red p) /\
    (forall i p, bitmap_data g !! i = Some p ->
       exists q, bitmap_data out !! i = Some q /\ black_or_white_pixel q /\
         ((forall r, In r (bitmap_data g) -> red p <= red r) -> red q = 0) /\
         ((forall r, In r (bitmap_data g) -> red r <= red p) -> red q = 255)).
Proof.
  intros Hgrey Hvalid Hdark Hbright Hlt.
  destruct (valid_red_level g dark Hvalid Hdark) as [Hd Hd'].
  destruct (valid_red_level g bright Hvalid Hbright) as [Hb Hb'].
  destruct (otsu_threshold_occupied (gray_histogram g)
              (Z.to_nat (red dark)) (Z.to_nat (red bright)))
    as (t & Ht & Hle & (i & Hi & Hbi) & (j & Hj & Hbj)).
  { apply gray_histogram_length. }
  { apply gray_histogram_nonneg, Hvalid. }
  { lia. }
  { exact Hb'. }
  { apply gray_histogram_occupied; [exact Hvalid|]. exists dark. split; [exact Hdark|exact Hd]. }
  { apply gray_histogram_occupied; [exact Hvalid|]. exists bright.
    split; [exact Hbright|exact Hb]. }
  apply gray_histogram_occupied in Hbi as (pi & Hpi & Hri); [|exact Hvalid].
  apply gray_histogram_occupied in Hbj as (pj & Hpj & Hrj); [|exact Hvalid].
  assert (Hdarkest : forall p, In p (bitmap_data g) ->
            (forall q, In q (bitmap_data g) -> red p <= red q) -> red p <= Z.of_nat t).
  { intros p _ Hmin. specialize (Hmin pi Hpi). lia. }
  assert (Hbrightest : forall p, In p (bitmap_data g) ->
            (forall q, In q (bitmap_data g) -> red q <= red p) -> Z.of_nat t < red p).
  { intros p _ Hmax. specialize (Hmax pj Hpj). lia. }
  exists (Z.of_nat t), (scan (black_or_white (Z.of_nat t)) g).
  split; [rewrite (preprocess_threshold image g Hgrey), Ht; reflexivity|].
  split; [lia|]. split; [exact Hdarkest|]. split; [exact Hbrightest|].
  intros k p Hp. destruct Hvalid as [Hlen Hpixels].
  rewrite (scan_data _ g Hlen), list_lookup_fmap, Hp.
  exists (black_or_white (Z.of_nat t) p). split; [reflexivity|].
  split; [apply black_or_white_values|].
  assert (Hin : In p (bitmap_data g)).
  { apply list_elem_of_In, list_elem_of_lookup. eauto. }
  unfold black_or_white. cbv zeta. cbn [red]. split.
  - intros Hmin. pose proof (Hdarkest p Hin Hmin).
    destruct (Z.gtb_spec (red p) (Z.of_nat t)); [lia|reflexivity].
  - intros Hmax. pose proof (Hbrightest p Hin Hmax).
    destruct (Z.gtb_spec (red p) (Z.of_nat t)); [reflexivity|lia].
Qed.

Lemma threshold_method_keeps_extremes_witness :
  @Jimp_greyscale stubJimp (MkJimp 2 1 [gray_pixel 10; gray_pixel 200])
  = Returned (MkJimp 2 1 [gray_pixel 10; gray_pixel 200]) /\
  valid_image (MkJimp 2 1 [gray_pixel 10; gray_pixel 200]) /\
  red (gray_pixel 10) < red (gray_pixel 200) /\
  exists t out,
    @preprocess stubJimp "threshold" (MkJimp 2 1 [gray_pixel 10; gray_pixel 200])
    = (Returned out, [EvJimp CallGreyscale; EvLog (DbgOtsuThreshold t)]) /\
    0 <= t <= 255.
Proof.
  assert (Hvalid : valid_image (MkJimp 2 1 [gray_pixel 10; gray_pixel 200])).
  { split; [reflexivity|]. repeat constructor; cbn; lia. }
  assert (Hlt : red (gray_pixel 10) < red (gray_pixel 200)) by (cbn; lia).
  split; [reflexivity|]. split; [exact Hvalid|]. split; [exact Hlt|].
  destruct (@threshold_method_keeps_extremes stubJimp
              (MkJimp 2 1 [gray_pixel 10; gray_pixel 200])
              (MkJimp 2 1 [gray_pixel 10; gray_pixel 200])
              (gray_pixel 10) (gray_pixel 200) eq_refl Hvalid
              ltac:(left; reflexivity) ltac:(right; left; reflexivity) Hlt)
    as (t & out & Hrun & Hrange & _).
  exists t, out. split; [exact Hrun|exact Hrange].
Defined.

(** No bin is a candidate when one grey level holds every pixel. *)
Lemma flat_histogram_no_candidate (histogram : list Z) (v : nat) :
  (forall i, bin histogram i <> 0 -> i = v) ->
  forall k, (k <= 255)%nat -> ~ candidate histogram k.
Proof.
  intros Hflat k Hk Hcand.
  destruct (candidate_occupied histogram k Hk Hcand) as [(i & Hi & Hbi) (j & Hj & Hbj)].
  pose proof (Hflat i Hbi). pose proof (Hflat j Hbj). lia.
Qed.

(** X11: when every pixel of the greyscale image has the same grey level
    (also when the image has no pixel at all), no threshold is a candidate,
    the threshold method logs the initial threshold 0, and the image comes
    out all white, or all black when that grey level is 0. *)
Theorem threshold_method_flat_image
    `{JimpLibrary} (image g : Jimp) (level : Z) :
  Jimp_greyscale image = Returned g ->
  valid_image g ->
  (forall p, In p (bitmap_data g) -> red p = level) ->
  preprocess "threshold" image
  = (Returned (scan (black_or_white 0) g),
     [EvJimp CallGreyscale; EvLog (DbgOtsuThreshold 0)]) /\
  Forall (fun q => red q = if 0 <? level then 255 else 0)
         (bitmap_data (scan (black_or_white 0) g)).
Proof.
  intros Hgrey Hvalid Hflat.
  assert (Hzero : calculateOtsuThreshold (gray_histogram g) = Some 0).
  { destruct (otsu_first_maximum (gray_histogram g) (gray_histogram_length g)
                (gray_histogram_nonneg g Hvalid)) as (t & Ht & _ & Hnone & _).
    rewrite Ht, Hnone; [reflexivity|].
    apply (flat_histogram_no_candidate _ (Z.to_nat level)).
    intros i Hbi. apply gray_histogram_occupied in Hbi as (p & Hin & Hred);
      [|exact Hvalid].
    rewrite (Hflat p Hin) in Hred. lia. }
  split.
  - rewrite (preprocess_threshold image g Hgrey), Hzero. reflexivity.
  - destruct Hvalid as [Hlen _]. rewrite (scan_data _ g Hlen).
    apply Forall_fmap, Forall_forall. intros p Hp. cbn.
    apply list_elem_of_In in Hp. rewrite (Hflat p Hp).
    unfold black_or_white. cbv zeta. cbn [red].
    destruct (Z.gtb_spec level 0); destruct (Z.ltb_spec 0 level); (reflexivity || lia).
Qed.

Lemma threshold_method_flat_image_witness :
  valid_image (MkJimp 1 1 [gray_pixel 200]) /\
  @preprocess stubJimp "threshold" (MkJimp 1 1 [gray_pixel 200])
  = (Returned (scan (black_or_white 0) (MkJimp 1 1 [gray_pixel 200])),
     [EvJimp CallGreyscale; EvLog (DbgOtsuThreshold 0)]).
Proof.
  assert (Hvalid : valid_image (MkJimp 1 1 [gray_pixel 200])).
  { split; [reflexivity|]. repeat constructor; cbn; lia. }
  split; [exact Hvalid|].
  refine (proj1 (@threshold_method_flat_image stubJimp (MkJimp 1 1 [gray_pixel 200])
                   (MkJimp 1 1 [gray_pixel 200]) 200 eq_refl Hvalid _)).
  intros p [<-|[]]. reflexivity.
Defined.

(** ** Luminance of grey images *)

Lemma grey_levels_check :
  forallb (fun n => match luminance (gray_pixel (Z.of_nat n)) with
                    | JsInt z => z =? Z.of_nat n
                    | _ => false
                    end) (seq 0 256) = true.
Proof. vm_compute. reflexivity. Qed.

(** The three weights add up to one closely enough: a grey pixel has its
    grey level as luminance. *)
Lemma luminance_grey (p : RGBA) :
  valid_pixel p -> is_grey p -> luminance p = JsInt (red p).
Proof.
  intros ([Hlo Hhi] & _) [Hg Hb].
  pose proof grey_levels_check as Hall. rewrite forallb_forall in Hall.
  specialize (Hall (Z.to_nat (red p))).
  assert (Hin : In (Z.to_nat (red p)) (seq 0 256)) by (apply in_seq; lia).
  specialize (Hall Hin). rewrite Z2Nat.id in Hall by exact Hlo.
  assert (Hsame : luminance p = luminance (gray_pixel (red p))).
  { unfold luminance, gray_pixel. cbn [red green blue]. rewrite <- Hb, <- Hg. reflexivity. }
  rewrite Hsame. destruct (luminance (gray_pixel (red p))) as [z| |]; try discriminate.
  apply Z.eqb_eq in Hall. rewrite Hall. reflexivity.
Qed.

Lemma luminanceArray_grey (image : Jimp) :
  valid_image image -> Forall is_grey (bitmap_data image) ->
  luminanceArray image = red <$> bitmap_data image.
Proof.
  intros Hvalid Hgrey. pose proof Hvalid as [Hlen Hpixels].
  rewrite luminanceArray_rows. apply list_eq. intros k.
  destruct (decide (k < getWidth image * getHeight image)%nat) as [Hk|Hk].
  - assert (Hw : getWidth image <> 0%nat) by lia.
    pose proof (Nat.div_mod_eq k (getWidth image)) as Hdiv.
    pose proof (Nat.mod_upper_bound k (getWidth image) Hw) as Hx.
    assert (Hy : (k / getWidth image < getHeight image)%nat).
    { apply Nat.Div0.div_lt_upper_bound. lia. }
    replace k with (k / getWidth image * getWidth image + k mod getWidth image)%nat
      at 1 by lia.
    rewrite (lookup_luminance_rows image _ _ _ Hy Hx).
    unfold pixel_at.
    replace (getWidth image * (k / getWidth image) + k mod getWidth image)%nat
      with k by lia.
    rewrite list_lookup_fmap.
    destruct (lookup_lt_is_Some_2 (bitmap_data image) k) as [p Hp]; [lia|].
    rewrite Hp. change (default (MkRGBA 0 0 0 0) (Some p)) with p.
    change (red <$> Some p) with (Some (red p)).
    rewrite Forall_forall in Hpixels, Hgrey.
    assert (Hin : p ∈ bitmap_data image) by (apply list_elem_of_lookup; eauto).
    rewrite (luminance_grey p (Hpixels p Hin) (Hgrey p Hin)). cbn [toUint8Clamp].
    destruct (Hpixels p Hin) as ([Hlo Hhi] & _). f_equal. lia.
  - transitivity (@None Z).
    + apply lookup_ge_None_2. rewrite length_luminance_rows. lia.
    + symmetry. apply lookup_ge_None_2. rewrite length_fmap. lia.
Qed.


(** X12: for a valid image of grey pixels the luminance matrix handed to the
    decoder is the grey byte of each pixel, unchanged: the three weights
    add up to one closely enough in binary64 for [Math.round] to give the
    grey level back, for each of the 256 levels.  In particular every entry
    of the matrix of a black-and-white image is 0 or 255. *)
Theorem grey_image_luminance (image : Jimp) :
  valid_image image ->
  Forall is_grey (bitmap_data image) ->
  luminanceArray image = red <$> bitmap_data image /\
  (forall i p, bitmap_data image !! i = Some p ->
     luminanceArray image !! i = Some (red p)) /\
  (Forall black_or_white_pixel (bitmap_data image) ->
   Forall (fun z => z = 0 \/ z = 255) (luminanceArray image)).
Proof.
  intros Hvalid Hgrey. rewrite (luminanceArray_grey image Hvalid Hgrey).
  split; [reflexivity|]. split.
  - intros i p Hp. rewrite list_lookup_fmap, Hp. reflexivity.
  - intros Hbw. apply Forall_fmap. eapply Forall_impl; [exact Hbw|].
    intros p [_ Hp]. exact Hp.
Qed.

Lemma grey_image_luminance_witness :
  valid_image (MkJimp 2 1 [gray_pixel 10; gray_pixel 200]) /\
  Forall is_grey (bitmap_data (MkJimp 2 1 [gray_pixel 10; gray_pixel 200])) /\
  luminanceArray (MkJimp 2 1 [gray_pixel 10; gray_pixel 200]) = [10; 200].
Proof.
  assert (Hvalid : valid_image (MkJimp 2 1 [gray_pixel 10; gray_pixel 200])).
  { split; [reflexivity|]. repeat constructor; cbn; lia. }
  assert (Hgrey : Forall is_grey (bitmap_data (MkJimp 2 1 [gray_pixel 10; gray_pixel 200]))).
  { repeat constructor. }
  split; [exact Hvalid|]. split; [exact Hgrey|].
  exact (proj1 (grey_image_luminance _ Hvalid Hgrey)).
Defined.

(** ** Rows of the luminance source *)

Lemma luminance_rows_slice (image : Jimp) (h y : nat) :
  (y < h)%nat ->
  take (getWidth image) (drop (y * getWidth image) (luminance_rows image h))
  = luminance_row image y.
Proof.
  intros Hy. apply list_eq. intros x.
  destruct (decide (x < getWidth image)%nat) as [Hx|Hx].
  - rewrite lookup_take_lt by exact Hx. rewrite lookup_drop.
    rewrite (lookup_luminance_rows image h x y Hy Hx).
    unfold luminance_row. rewrite list_lookup_fmap, lookup_seq_lt by exact Hx.
    reflexivity.
  - rewrite lookup_take_ge by lia. symmetry. apply lookup_ge_None_2.
    rewrite length_luminance_row. lia.
Qed.

(** X13: [getRow(y, row)] for a row [y] of the image puts the luminances of
    that row, left to right, at the start of its result.  Without a buffer,
    or with one shorter than the width, the result is exactly that row;
    with a longer buffer it is the buffer itself, its entries from [width]
    on untouched.  Taken one after the other, the rows give the matrix
    back.  For [y] at or beyond the height, a call without a buffer returns
    [width] zeros instead of failing. *)
Theorem getRow_into_rows (image : Jimp) (y : nat) :
  ((y < getHeight image)%nat ->
   getRow_into (luminanceSource image) y None = luminance_row image y /\
   forall given,
     take (getWidth image) (getRow_into (luminanceSource image) y (Some given))
     = luminance_row image y /\
     ((length given < getWidth image)%nat ->
      getRow_into (luminanceSource image) y (Some given) = luminance_row image y) /\
     ((getWidth image <= length given)%nat ->
      length (getRow_into (luminanceSource image) y (Some given)) = length given /\
      drop (getWidth image) (getRow_into (luminanceSource image) y (Some given))
      = drop (getWidth image) given)) /\
  ((getHeight image <= y)%nat ->
   getRow_into (luminanceSource image) y None = replicate (getWidth image) 0) /\
  flat_map (fun y' => getRow_into (luminanceSource image) y' None)
           (seq 0 (getHeight image))
  = getMatrix (luminanceSource image).
Proof.
  assert (Hfresh : forall y', (y' < getHeight image)%nat ->
            getRow_into (luminanceSource image) y' None = luminance_row image y').
  { intros y' Hy'. unfold getRow_into, luminanceSource.
    cbn [source_width getMatrix]. cbv zeta.
    rewrite luminanceArray_rows, (luminance_rows_slice image _ y' Hy').
    rewrite length_luminance_row, drop_ge by (rewrite length_replicate; lia).
    apply app_nil_r. }
  split; [|split].
  - intros Hy. split; [apply Hfresh, Hy|]. intros given.
    unfold getRow_into, luminanceSource. cbn [source_width getMatrix]. cbv zeta.
    rewrite luminanceArray_rows, (luminance_rows_slice image _ y Hy).
    rewrite length_luminance_row.
    destruct (Nat.ltb_spec (length given) (getWidth image)) as [Hshort|Hlong].
    + rewrite drop_ge by (rewrite length_replicate; lia). rewrite app_nil_r.
      split; [|split; [reflexivity|lia]].
      apply take_ge. rewrite length_luminance_row. lia.
    + split; [|split; [lia|]].
      * rewrite take_app_length' by (symmetry; apply length_luminance_row). reflexivity.
      * intros _. split.
        -- rewrite length_app, length_luminance_row, length_drop. lia.
        -- rewrite drop_app_length' by (symmetry; apply length_luminance_row). reflexivity.
  - intros Hy. unfold getRow_into, luminanceSource.
    cbn [source_width getMatrix]. cbv zeta.
    rewrite (drop_ge (luminanceArray image)).
    + rewrite take_nil. reflexivity.
    + rewrite luminanceArray_rows, length_luminance_rows. nia.
  - cbn [luminanceSource getMatrix]. rewrite luminanceArray_rows. unfold luminance_rows.
    assert (Hall : forall ys, Forall (fun y' => (y' < getHeight image)%nat) ys ->
              flat_map (fun y' => getRow_into (luminanceSource image) y' None) ys
              = flat_map (luminance_row image) ys).
    { induction 1 as [|y' ys Hy' _ IH]; [reflexivity|].
      cbn [flat_map]. rewrite IH, (Hfresh y' Hy'). reflexivity. }
    apply Hall, Forall_forall. intros y' Hin. apply list_elem_of_In, in_seq in Hin. lia.
Qed.

(** ** Files written by a run *)

Lemma writes_app (t1 t2 : list Event) : writes (t1 ++ t2) = writes t1 ++ writes t2.
Proof. apply omap_app. Qed.

Lemma no_write_writes (t : list Event) :
  forallb not_a_write t = true -> writes t = [].
Proof.
  induction t as [|ev t IH]; [reflexivity|].
  cbn [forallb]. rewrite andb_true_iff. intros [Hev Ht].
  destruct ev as [|[]|]; cbn in *; try discriminate; auto.
Qed.

Lemma no_write_bind {A B : Type} (m : Eff A) (k : A -> Eff B) :
  forallb not_a_write (snd m) = true ->
  (forall a, forallb not_a_write (snd (k a)) = true) ->
  forallb not_a_write (snd (bind m k)) = true.
Proof.
  intros Hm Hk. rewrite snd_bind, forallb_app, Hm.
  destruct (fst m); [apply Hk|reflexivity].
Qed.

Lemma no_write_try_catch {A : Type} (body : Eff A) (handler : JsError -> Eff A) :
  forallb not_a_write (snd body) = true ->
  (forall e, forallb not_a_write (snd (handler e)) = true) ->
  forallb not_a_write (snd (try_catch body handler)) = true.
Proof.
  intros Hb Hh. rewrite snd_try_catch, forallb_app, Hb.
  destruct (fst body); [reflexivity|apply Hh].
Qed.

Ltac no_write :=
  repeat first
    [ reflexivity
    | apply no_write_bind; [|intros ?]
    | apply no_write_try_catch; [|intros ?]
    | match goal with
      | |- context [if ?c then _ else _] => destruct c
      | |- context [match ?c with Some _ => _ | None => _ end] => destruct c
      end ].

Section Writes.
Context `{JimpLibrary} `{ZXingLibrary}.

Lemma preprocess_no_write method image :
  forallb not_a_write (snd (preprocess method image)) = true.
Proof. unfold preprocess, applyThreshold. no_write. Qed.

Lemma analyzeImageProperties_no_write world image :
  forallb not_a_write (snd (analyzeImageProperties world image)) = true.
Proof.
  unfold analyzeImageProperties. cbv zeta.
  destruct (foldl _ _ _) as [[totalBrightness darkPixels] lightPixels].
  no_write.
Qed.

Lemma decodeWithBinarizer_no_write image binarizerType :
  forallb not_a_write (snd (decodeWithBinarizer image binarizerType)) = true.
Proof.
  unfold decodeWithBinarizer. rewrite snd_try_catch, snd_bind, fst_bind.
  cbn [fst snd app].
  destruct (reader_decode _ _) as [decodedText|[]]; reflexivity.
Qed.

Lemma tryDecodeWithProcessing_no_write image method :
  forallb not_a_write (during_call (tryDecodeWithProcessing image method)) = true /\
  forallb not_a_write (after_await (tryDecodeWithProcessing image method)) = true.
Proof.
  unfold tryDecodeWithProcessing.
  pose proof (preprocess_no_write method image) as Hquiet.
  destruct (logger (DbgTrying method);;; preprocess method image)
    as [[processedImage|error] t] eqn:E;
    pose proof (f_equal snd E) as Es; rewrite snd_bind in Es;
    cbn [fst snd logger emit app] in Es; subst t;
    cbn [during_call after_await].
  - split.
    + rewrite !forallb_app. cbn [forallb not_a_write andb].
      rewrite Hquiet, !decodeWithBinarizer_no_write. reflexivity.
    + destruct (first_truthy _); reflexivity.
  - split; [|reflexivity].
    rewrite !forallb_app. cbn [forallb not_a_write andb].
    rewrite Hquiet. reflexivity.
Qed.

Lemma promises_no_write image ms :
  forallb not_a_write
    (concat (during_call <$> (tryDecodeWithProcessing image <$> ms))) = true /\
  forallb not_a_write
    (concat (after_await <$> (tryDecodeWithProcessing image <$> ms))) = true.
Proof.
  split.
  - induction ms as [|method ms IH]; [reflexivity|].
    cbn [fmap list_fmap concat]. rewrite forallb_app, IH.
    rewrite (proj1 (tryDecodeWithProcessing_no_write image method)). reflexivity.
  - induction ms as [|method ms IH]; [reflexivity|].
    cbn [fmap list_fmap concat]. rewrite forallb_app, IH.
    rewrite (proj2 (tryDecodeWithProcessing_no_write image method)). reflexivity.
Qed.

(** The files of [write_versions] are the first names of its list, up to
    and including the first one whose write fails. *)
Lemma write_versions_prefix world names :
  forall k, exists n,
    (fst <$> writes (snd (write_versions world k names))) = take n names.
Proof.
  induction names as [|name names IH]; intros k; cbn [write_versions].
  - exists 0%nat. reflexivity.
  - destruct (writeAsync world name (Date_now world k)).
    + exists 1%nat. cbn. rewrite take_0. reflexivity.
    + destruct (IH (S k)) as [n Hn]. exists (S n).
      rewrite !snd_bind. cbn [fst snd emit logger app].
      change (writes (?a :: ?b :: ?t)) with ((name, Date_now world k) :: writes t).
      cbn [fmap list_fmap fst take]. rewrite Hn. reflexivity.
Qed.

Lemma write_versions_all world names :
  (forall name now, writeAsync world name now = None) ->
  forall k,
    writes (snd (write_versions world k names))
    = imap (fun i name => (name, Date_now world (k + i))) names.
Proof.
  intros Hok. induction names as [|name names IH]; intros k; cbn [write_versions].
  - reflexivity.
  - rewrite Hok. rewrite !snd_bind. cbn [fst snd emit logger app].
    change (writes (?a :: ?b :: ?t)) with ((name, Date_now world k) :: writes t).
    rewrite IH. cbn [imap]. rewrite Nat.add_0_r. f_equal.
    apply imap_ext. intros i x _. cbn. f_equal. f_equal. lia.
Qed.

(** [saveDebugVersions] writes what its loop writes, and nothing when the
    debug images are switched off or a version cannot be made. *)
Lemma saveDebugVersions_writes world image :
  writes (snd (saveDebugVersions world image))
  = if debug_images world then
      match Jimp_greyscale image with
      | Returned g =>
          match Jimp_contrast (1 # 2) g with
          | Returned c =>
              match Jimp_normalize c with
              | Returned _ =>
                  writes (snd (write_versions world 0
                     ["original"; "grayscale"; "contrast"; "threshold"]%string))
              | Thrown _ => []
              end
          | Thrown _ => []
          end
      | Thrown _ => []
      end
    else [].
Proof.
  unfold saveDebugVersions, applyThreshold, greyscale, contrast, normalize.
  destruct (debug_images world); [|reflexivity].
  destruct (Jimp_greyscale image) as [g|e];
    cbn [bind try_catch logger emit ret fst snd app]; [|reflexivity].
  destruct (Jimp_contrast (1 # 2) g) as [c|e];
    cbn [bind try_catch logger emit ret fst snd app]; [|reflexivity].
  destruct (Jimp_normalize c) as [n|e];
    cbn [bind try_catch logger emit ret fst snd app]; [|reflexivity].
  destruct (write_versions world 0 _) as [[[]|e] t];
    cbn [bind try_catch logger emit ret fst snd app].
  - reflexivity.
  - change (writes (?a :: ?b :: ?c :: ?d :: ?e' :: ?rest)) with (writes rest).
    rewrite writes_app. apply app_nil_r.
Qed.

(** The files written by a run on a readable buffer are those of
    [saveDebugVersions], and there are none when a text was found. *)
Lemma decodeQrFromBuffer_writes world buffer image :
  Jimp_read buffer = Returned image ->
  writes (snd (decodeQrFromBuffer world buffer))
  = match first_text image ladder with
    | Some _ => []
    | None => writes (snd (saveDebugVersions world image))
    end.
Proof.
  intros Hread. unfold decodeQrFromBuffer, read. rewrite Hread.
  pose proof (first_truthy_methods image methods) as Hfirst.
  fold ladder in Hfirst.
  destruct (promises_no_write image methods) as [Hduring Hafter].
  pose proof (analyzeImageProperties_returns world image) as Ha.
  pose proof (analyzeImageProperties_no_write world image) as Has.
  pose proof (saveDebugVersions_returns world image) as Hs.
  repeat (progress (rewrite ?snd_try_catch, ?fst_try_catch, ?snd_bind, ?fst_bind, ?Ha;
                    cbn [fst snd logger emit ret throw]; cbv zeta)).
  rewrite ?Hfirst. rewrite !writes_app.
  rewrite (no_write_writes _ Has), (no_write_writes _ Hduring),
          (no_write_writes _ Hafter).
  destruct (first_text image ladder).
  - reflexivity.
  - repeat (progress (rewrite ?snd_bind, ?fst_bind, ?Hs;
                      cbn [fst snd logger emit ret throw])).
    rewrite !writes_app. cbn [writes omap list_omap app]. rewrite !app_nil_r.
    reflexivity.
Qed.
End Writes.

(** X14: a run on a readable buffer writes a file only when no attempt gave
    a text and the debug images are switched on; the files are then the
    first versions in the order original, grayscale, contrast, threshold,
    at most four, and all four, stamped with successive readings of the
    clock, when the three jimp operations and every write succeed. *)
Theorem debug_images_only_after_exhaustion
    `{JimpLibrary} `{ZXingLibrary} (world : World) (buffer : list Z) (image : Jimp) :
  Jimp_read buffer = Returned image ->
  (first_text image ladder <> None \/ debug_images world = false ->
   writes (snd (decodeQrFromBuffer world buffer)) = []) /\
  (exists n,
     (fst <$> writes (snd (decodeQrFromBuffer world buffer)))
     = take n ["original"; "grayscale"; "contrast"; "threshold"]%string) /\
  (forall g c n,
     first_text image ladder = None -> debug_images world = true ->
     Jimp_greyscale image = Returned g ->
     Jimp_contrast (1 # 2) g = Returned c ->
     Jimp_normalize c = Returned n ->
     (forall name now, writeAsync world name now = None) ->
     writes (snd (decodeQrFromBuffer world buffer))
     = [("original", Date_now world 0); ("grayscale", Date_now world 1);
        ("contrast", Date_now world 2); ("threshold", Date_now world 3)]%string).
Proof.
  intros Hread. rewrite (decodeQrFromBuffer_writes world buffer image Hread).
  rewrite saveDebugVersions_writes. split; [|split].
  - intros [Hfound| ->].
    + destruct (first_text image ladder); [reflexivity|congruence].
    + destruct (first_text image ladder); reflexivity.
  - destruct (first_text image ladder); [exists 0%nat; reflexivity|].
    destruct (debug_images world); [|exists 0%nat; reflexivity].
    destruct (Jimp_greyscale image) as [g|]; [|exists 0%nat; reflexivity].
    destruct (Jimp_contrast (1 # 2) g) as [c|]; [|exists 0%nat; reflexivity].
    destruct (Jimp_normalize c); [|exists 0%nat; reflexivity].
    apply write_versions_prefix.
  - intros g c n -> -> -> -> -> Hok.
    rewrite (write_versions_all world _ Hok). reflexivity.
Qed.

Lemma debug_images_only_after_exhaustion_witness :
  @Jimp_read stubJimp [200] = Returned (MkJimp 1 1 [gray_pixel 200]) /\
  writes (snd (@decodeQrFromBuffer stubJimp (constantZXing (Thrown NotFoundException))
                 debugWorld [200]))
  = [("original", 1700000000000); ("grayscale", 1700000000001);
     ("contrast", 1700000000002); ("threshold", 1700000000003)]%string.
Proof.
  split; [reflexivity|].
  refine (proj2 (proj2
    (@debug_images_only_after_exhaustion stubJimp
       (constantZXing (Thrown NotFoundException)) debugWorld [200]
       (MkJimp 1 1 [gray_pixel 200]) eq_refl))
    (MkJimp 1 1 [gray_pixel 200]) (MkJimp 1 1 [gray_pixel 200])
    (MkJimp 1 1 [gray_pixel 200]) _ eq_refl eq_refl eq_refl eq_refl _).
  - vm_compute. reflexivity.
  - intros name now. reflexivity.
Defined.

(** ** Properties of the image analysis *)






(** ** Properties of the configuration *)


(** ** Which attempts a run makes *)

Section AttemptsMade.
Context `{JimpLibrary} `{ZXingLibrary}.

Lemma pairs_tried_sublist image ms :
  sublist (flat_map (pairs_tried image) ms) (ladder_of ms).
Proof.
  induction ms as [|method ms IH]; [constructor|].
  cbn [flat_map ladder_of]. fold (ladder_of ms).
  apply sublist_app; [|exact IH].
  unfold pairs_tried. destruct (fst (preprocess method image)).
  - reflexivity.
  - apply sublist_nil_l.
Qed.

Lemma pairs_tried_both image ms method :
  In (method, hybrid) (flat_map (pairs_tried image) ms) <->
  In (method, global) (flat_map (pairs_tried image) ms).
Proof.
  rewrite !in_flat_map. unfold pairs_tried.
  split; intros (m & Hm & Hin); exists m; (split; [exact Hm|]);
    destruct (fst (preprocess m image)); cbn in *;
    intuition (try discriminate; try congruence);
    match goal with
    | Heq : (_, _) = (_, _) |- _ => injection Heq as <-; auto
    end.
Qed.
End AttemptsMade.

(** X17: on every buffer that jimp can read, whatever the image operations
    do afterwards, the run starts with the two attempts on the untouched
    image, hybrid binarizer first; the attempts that follow are taken from
    the remaining twelve pairs in their fixed order, and every method is
    tried with both binarizers or with neither. *)
Theorem original_always_attempted
    `{JimpLibrary} `{ZXingLibrary} (world : World) (buffer : list Z) (image : Jimp) :
  Jimp_read buffer = Returned image ->
  exists rest,
    attempts (snd (decodeQrFromBuffer world buffer))
    = ("original"%string, hybrid) :: ("original"%string, global) :: rest /\
    sublist rest (drop 2 ladder) /\
    (length rest <= 12)%nat /\
    forall method,
      In (method, hybrid) (attempts (snd (decodeQrFromBuffer world buffer))) <->
      In (method, global) (attempts (snd (decodeQrFromBuffer world buffer))).
Proof.
  intros Hread.
  destruct (decodeQrFromBuffer_run world buffer image Hread) as [_ Hsnd].
  rewrite Hsnd.
  exists (flat_map (pairs_tried image) (drop 1 methods)).
  split; [reflexivity|].
  pose proof (pairs_tried_sublist image (drop 1 methods)) as Hsub.
  split; [exact Hsub|].
  split; [apply sublist_length in Hsub; exact Hsub|].
  intros method. apply pairs_tried_both.
Qed.

Lemma original_always_attempted_witness :
  @Jimp_read stubJimp [200] = Returned (MkJimp 1 1 [gray_pixel 200]) /\
  exists rest,
    attempts (snd (@decodeQrFromBuffer stubJimp crashingZXing quietWorld [200]))
    = ("original"%string, hybrid) :: ("original"%string, global) :: rest.
Proof.
  split; [reflexivity|].
  destruct (@original_always_attempted stubJimp crashingZXing quietWorld [200]
              (MkJimp 1 1 [gray_pixel 200]) eq_refl) as (rest & Hrest & _).
  exists rest. exact Hrest.
Defined.

(** ** What the decoder is given by the black-and-white methods *)




(** ** The answer of the controller and the fourteen attempts *)

Section Answer.
Context `{JimpLibrary} `{ZXingLibrary}.



End Answer.



(** X20: on every histogram of 256 non-negative counts the threshold is at
    most 254, and it is 0 unless some bin at or below it and some bin above
    it are occupied: the comparison [gray > threshold] of the threshold
    method is never one that no byte can pass. *)
Theorem otsu_threshold_at_most_254 (histogram : list Z) :
  length histogram = 256%nat ->
  Forall (fun c => 0 <= c) histogram ->
  exists t : nat,
    calculateOtsuThreshold histogram = Some (Z.of_nat t) /\
    (t <= 254)%nat /\
    (t <> 0%nat ->
     (exists i, (i <= t)%nat /\ 0 < bin histogram i) /\
     (exists j, (t < j <= 255)%nat /\ 0 < bin histogram j)).
Proof.
  intros Hlen Hnonneg.
  destruct (otsu_first_maximum histogram Hlen Hnonneg) as (t & Ht & Hle & Hnone & Hmax).
  exists t. split; [exact Ht|].
  assert (Hcases : t = 0%nat \/ candidate histogram t).
  { destruct (decide (t = 0%nat)) as [Hz|Hnz]; [left; exact Hz|right].
    assert (Hdec : forall n, (forall k, (k < n)%nat -> ~ candidate histogram k) \/
                             exists k, (k < n)%nat /\ candidate histogram k).
    { induction n as [|n [IH|(k & Hk & Hc)]].
      - left. intros k Hk. lia.
      - assert (Hcand : candidate histogram n \/ ~ candidate histogram n).
        { unfold candidate.
          destruct (decide (otsu_wB histogram n = 0));
            destruct (decide (otsu_wF histogram n = 0)); intuition. }
        destruct Hcand as [Hc|Hc].
        + right. exists n. split; [lia|exact Hc].
        + left. intros k Hk. destruct (decide (k = n)) as [->|]; [exact Hc|].
          apply IH. lia.
      - right. exists k. split; [lia|exact Hc]. }
    destruct (Hdec 256%nat) as [Hno|(k & Hk & Hc)].
    - exfalso. apply Hnz, Hnone. intros k Hk. apply Hno. lia.
    - apply (Hmax k); [lia|exact Hc]. }
  destruct Hcases as [->|Hcand].
  - split; [lia|]. intros Hne. congruence.
  - destruct (candidate_occupied histogram t Hle Hcand)
      as [(i & Hi & Hbi) (j & Hj & Hbj)].
    pose proof (bin_nonneg histogram Hnonneg i).
    pose proof (bin_nonneg histogram Hnonneg j).
    split; [lia|]. intros _. split; [exists i|exists j]; split; lia.
Qed.

Lemma otsu_threshold_at_most_254_witness :
  length (uniform 3) = 256%nat /\
  exists t : nat, calculateOtsuThreshold (uniform 3) = Some (Z.of_nat t) /\ (t <= 254)%nat.
Proof.
  assert (Hlen : length (uniform 3) = 256%nat) by reflexivity.
  assert (Hnonneg : Forall (fun c => 0 <= c) (uniform 3)).
  { apply uniform_nonneg. lia. }
  split; [exact Hlen|].
  destruct (otsu_threshold_at_most_254 _ Hlen Hnonneg) as (t & Ht & Hle & _).
  exists t. split; [exact Ht|exact Hle].
Defined.

